(** * Melody: the follow-along playback engine of the piano tutorial

    A shallow embedding of the two front-end engines of the repository:

    - [PianoLearningApp]: the enhanced engine (tempo, timers, notifications,
      keyboard stepping);
    - [PianoLearningAppMVP]: the first engine of [frontend/script.js]
      (finger heuristic, built-in sample sequence).

    JavaScript numbers that carry times are binary64 floats ([PrimFloat]);
    indices and MIDI codes are integers.  The page is a record of the
    elements the engine queries; the browser's timer table is a list of
    armed timers. *)

From Stdlib Require Import ZArith Bool List Lia Ascii String Floats.
Import ListNotations.

Set Implicit Arguments.

(** ** JavaScript numbers *)

Module JS.

Definition number := float.

(** [Math.max(a, b)]: NaN if either argument is NaN, the larger argument
    otherwise, with [+0] above [-0]. *)
Definition Math_max (a b : number) : number :=
  if (PrimFloat.is_nan a || PrimFloat.is_nan b)%bool then PrimFloat.nan
  else if PrimFloat.ltb a b then b
  else if PrimFloat.ltb b a then a
  else if (PrimFloat.is_zero a && PrimFloat.get_sign a)%bool then b
  else a.

(** The integer [n] as a number. *)
Definition of_nat (n : nat) : number :=
  PrimFloat.of_uint63 (Uint63.of_Z (Z.of_nat n)).

(** The Number value of a mathematical integer: the nearest binary64
    value, ties to even, infinite beyond the range. *)
Definition of_Z (z : Z) : number :=
  SF2Prim (binary_normalize prec emax z 0 false).

(** The integer that an integral number is, as its decimal spelling
    in an attribute reads; a fraction is cut off, and a number without
    a finite value reads as 0. *)
Definition to_int (x : number) : Z :=
  match Prim2SF x with
  | S754_finite s m e =>
      let v := if (0 <=? e)%Z then (Z.pos m * 2 ^ e)%Z
               else (Z.pos m / 2 ^ (- e))%Z in
      if s then (- v)%Z else v
  | _ => 0%Z
  end.

End JS.

(** ** Binary64 values with the sign bit set *)

(** The sign bit is set and the value is not NaN. *)
Definition sign_set (x : spec_float) : bool :=
  match x with
  | S754_zero s | S754_infinity s | S754_finite s _ _ => s
  | S754_nan => false
  end.

(** ** Small list helpers standing for DOM queries *)

Section Queries.
Variable A : Type.

(** [querySelector] followed by a mutation of the element found: the
    first element in document order that matches is changed. *)
Fixpoint update_first (p : A -> bool) (f : A -> A) (l : list A) : list A :=
  match l with
  | [] => []
  | x :: r => if p x then f x :: r else x :: update_first p f r
  end.

(** Number of elements carrying a class. *)
Definition count (p : A -> bool) (l : list A) : nat :=
  List.length (filter p l).
End Queries.

(** ** How a request to the backend settles *)

Inductive FetchResult (D : Type) :=
| NetworkError                        (* fetch rejects *)
| HttpError (status : Z)              (* response.ok is false *)
| BodyNotJson                         (* response.json() rejects *)
| Json (data : D).

Arguments NetworkError {D}.
Arguments HttpError {D} status.
Arguments BodyNotJson {D}.
Arguments Json {D} data.

(** The three ways a load fails at the boundary. *)
Definition failed {D : Type} (r : FetchResult D) : bool :=
  match r with Json _ => false | _ => true end.

(** ** The enhanced engine *)

Module PianoLearningApp.

Local Open Scope string_scope.

(** A note as delivered by the backend. *)
Record Note := {
  pitch : string;
  midi : Z;
  offset : JS.number;
  duration : JS.number;
  finger : Z;
  finger_name : string;
  hand : string
}.

(** [data.difficulty] of a response. *)
Record Difficulty := {
  level : string;
  score : JS.number;
  d_total_notes : Z;
  note_span : Z;
  factors : list string
}.

(** A piano key element built by [createKey], with its finger indicator
    child. *)
Record PianoKey := {
  data_note : string;
  data_midi : Z;
  key_active : bool;               (* class 'active' *)
  indicator_text : option Z;       (* textContent of .finger-indicator *)
  indicator_show : bool            (* class 'show' on .finger-indicator *)
}.

(** A finger ellipse built by [createHandSVG]. *)
Record FingerShape := {
  data_finger : Z;
  finger_base : bool;              (* class 'finger-base' *)
  finger_active : bool             (* class 'finger-active' *)
}.

(** The text readout written by [displayCurrentNote]; template strings
    are kept as the values they interpolate. *)
Record Readout := {
  current_note : string;
  finger_info : option (Z * string);   (* None is the text 'None' *)
  hand_position : string;
  current_time : JS.number             (* before toFixed(1) *)
}.

(** The part of the page the engine reads and writes. *)
Record Document := {
  piano_keys : list PianoKey;          (* document order *)
  right_hand_svg : list FingerShape;
  left_hand_svg : list FingerShape;
  readout : Readout;
  progress_fill : JS.number;           (* width in percent *)
  notes_played : nat;
  play_pause_label : string;
  play_pause_disabled : bool;
  total_notes_text : option Z;
  difficulty_badge : option Difficulty;
  tempo_display : JS.number;           (* percent, before rounding *)
  left_hand_display : bool;            (* display: block / none *)
  right_hand_display : bool
}.

(** The fields of the [PianoLearningApp] object. *)
Record App := {
  notes : list Note;
  handPositions : list string;         (* opaque payload, never read *)
  currentNoteIndex : nat;
  isPlaying : bool;
  playbackSpeed : JS.number;
  visibleHands : string;
  playbackTimer : option positive
}.

(** A timer armed by [setTimeout(() => this.playNextNote(), delay)]. *)
Record Timer := { handle : positive; delay : JS.number }.

Record Notification := { message : string; kind : string }.

(** The app object together with its environment: the page, the
    browser's table of armed advance timers, the next timer handle and
    the notifications shown so far (newest last). *)
Record World := {
  app : App;
  document : Document;
  timers : list Timer;
  next_handle : positive;
  notifications : list Notification
}.

(** *** Field updates *)

Definition with_app (f : App -> App) (w : World) : World :=
  {| app := f (app w); document := document w; timers := timers w;
     next_handle := next_handle w; notifications := notifications w |}.

Definition with_document (f : Document -> Document) (w : World) : World :=
  {| app := app w; document := f (document w); timers := timers w;
     next_handle := next_handle w; notifications := notifications w |}.

Definition with_timers (f : list Timer -> list Timer) (w : World) : World :=
  {| app := app w; document := document w; timers := f (timers w);
     next_handle := next_handle w; notifications := notifications w |}.

Definition set_notes (l : list Note) (a : App) : App :=
  {| notes := l; handPositions := handPositions a;
     currentNoteIndex := currentNoteIndex a; isPlaying := isPlaying a;
     playbackSpeed := playbackSpeed a; visibleHands := visibleHands a;
     playbackTimer := playbackTimer a |}.

Definition set_handPositions (l : list string) (a : App) : App :=
  {| notes := notes a; handPositions := l;
     currentNoteIndex := currentNoteIndex a; isPlaying := isPlaying a;
     playbackSpeed := playbackSpeed a; visibleHands := visibleHands a;
     playbackTimer := playbackTimer a |}.

Definition set_currentNoteIndex (i : nat) (a : App) : App :=
  {| notes := notes a; handPositions := handPositions a;
     currentNoteIndex := i; isPlaying := isPlaying a;
     playbackSpeed := playbackSpeed a; visibleHands := visibleHands a;
     playbackTimer := playbackTimer a |}.

Definition set_isPlaying (b : bool) (a : App) : App :=
  {| notes := notes a; handPositions := handPositions a;
     currentNoteIndex := currentNoteIndex a; isPlaying := b;
     playbackSpeed := playbackSpeed a; visibleHands := visibleHands a;
     playbackTimer := playbackTimer a |}.

Definition set_playbackSpeed (s : JS.number) (a : App) : App :=
  {| notes := notes a; handPositions := handPositions a;
     currentNoteIndex := currentNoteIndex a; isPlaying := isPlaying a;
     playbackSpeed := s; visibleHands := visibleHands a;
     playbackTimer := playbackTimer a |}.

Definition set_visibleHands (s : string) (a : App) : App :=
  {| notes := notes a; handPositions := handPositions a;
     currentNoteIndex := currentNoteIndex a; isPlaying := isPlaying a;
     playbackSpeed := playbackSpeed a; visibleHands := s;
     playbackTimer := playbackTimer a |}.

Definition set_playbackTimer (t : option positive) (a : App) : App :=
  {| notes := notes a; handPositions := handPositions a;
     currentNoteIndex := currentNoteIndex a; isPlaying := isPlaying a;
     playbackSpeed := playbackSpeed a; visibleHands := visibleHands a;
     playbackTimer := t |}.

Definition set_piano_keys (l : list PianoKey) (d : Document) : Document :=
  {| piano_keys := l; right_hand_svg := right_hand_svg d;
     left_hand_svg := left_hand_svg d; readout := readout d;
     progress_fill := progress_fill d; notes_played := notes_played d;
     play_pause_label := play_pause_label d;
     play_pause_disabled := play_pause_disabled d;
     total_notes_text := total_notes_text d;
     difficulty_badge := difficulty_badge d;
     tempo_display := tempo_display d;
     left_hand_display := left_hand_display d;
     right_hand_display := right_hand_display d |}.

Definition set_hands (r l : list FingerShape) (d : Document) : Document :=
  {| piano_keys := piano_keys d; right_hand_svg := r;
     left_hand_svg := l; readout := readout d;
     progress_fill := progress_fill d; notes_played := notes_played d;
     play_pause_label := play_pause_label d;
     play_pause_disabled := play_pause_disabled d;
     total_notes_text := total_notes_text d;
     difficulty_badge := difficulty_badge d;
     tempo_display := tempo_display d;
     left_hand_display := left_hand_display d;
     right_hand_display := right_hand_display d |}.

Definition set_readout (r : Readout) (d : Document) : Document :=
  {| piano_keys := piano_keys d; right_hand_svg := right_hand_svg d;
     left_hand_svg := left_hand_svg d; readout := r;
     progress_fill := progress_fill d; notes_played := notes_played d;
     play_pause_label := play_pause_label d;
     play_pause_disabled := play_pause_disabled d;
     total_notes_text := total_notes_text d;
     difficulty_badge := difficulty_badge d;
     tempo_display := tempo_display d;
     left_hand_display := left_hand_display d;
     right_hand_display := right_hand_display d |}.

Definition set_progress (p : JS.number) (n : nat) (d : Document) : Document :=
  {| piano_keys := piano_keys d; right_hand_svg := right_hand_svg d;
     left_hand_svg := left_hand_svg d; readout := readout d;
     progress_fill := p; notes_played := n;
     play_pause_label := play_pause_label d;
     play_pause_disabled := play_pause_disabled d;
     total_notes_text := total_notes_text d;
     difficulty_badge := difficulty_badge d;
     tempo_display := tempo_display d;
     left_hand_display := left_hand_display d;
     right_hand_display := right_hand_display d |}.

Definition set_play_pause_label (s : string) (d : Document) : Document :=
  {| piano_keys := piano_keys d; right_hand_svg := right_hand_svg d;
     left_hand_svg := left_hand_svg d; readout := readout d;
     progress_fill := progress_fill d; notes_played := notes_played d;
     play_pause_label := s;
     play_pause_disabled := play_pause_disabled d;
     total_notes_text := total_notes_text d;
     difficulty_badge := difficulty_badge d;
     tempo_display := tempo_display d;
     left_hand_display := left_hand_display d;
     right_hand_display := right_hand_display d |}.

Definition set_loaded (total : Z) (d : Document) : Document :=
  {| piano_keys := piano_keys d; right_hand_svg := right_hand_svg d;
     left_hand_svg := left_hand_svg d; readout := readout d;
     progress_fill := progress_fill d; notes_played := notes_played d;
     play_pause_label := play_pause_label d;
     play_pause_disabled := false;
     total_notes_text := Some total;
     difficulty_badge := difficulty_badge d;
     tempo_display := tempo_display d;
     left_hand_display := left_hand_display d;
     right_hand_display := right_hand_display d |}.

Definition set_difficulty (diff : Difficulty) (d : Document) : Document :=
  {| piano_keys := piano_keys d; right_hand_svg := right_hand_svg d;
     left_hand_svg := left_hand_svg d; readout := readout d;
     progress_fill := progress_fill d; notes_played := notes_played d;
     play_pause_label := play_pause_label d;
     play_pause_disabled := play_pause_disabled d;
     total_notes_text := total_notes_text d;
     difficulty_badge := Some diff;
     tempo_display := tempo_display d;
     left_hand_display := left_hand_display d;
     right_hand_display := right_hand_display d |}.

Definition set_tempo_display (t : JS.number) (d : Document) : Document :=
  {| piano_keys := piano_keys d; right_hand_svg := right_hand_svg d;
     left_hand_svg := left_hand_svg d; readout := readout d;
     progress_fill := progress_fill d; notes_played := notes_played d;
     play_pause_label := play_pause_label d;
     play_pause_disabled := play_pause_disabled d;
     total_notes_text := total_notes_text d;
     difficulty_badge := difficulty_badge d;
     tempo_display := t;
     left_hand_display := left_hand_display d;
     right_hand_display := right_hand_display d |}.

Definition set_hand_display (l r : bool) (d : Document) : Document :=
  {| piano_keys := piano_keys d; right_hand_svg := right_hand_svg d;
     left_hand_svg := left_hand_svg d; readout := readout d;
     progress_fill := progress_fill d; notes_played := notes_played d;
     play_pause_label := play_pause_label d;
     play_pause_disabled := play_pause_disabled d;
     total_notes_text := total_notes_text d;
     difficulty_badge := difficulty_badge d;
     tempo_display := tempo_display d;
     left_hand_display := l;
     right_hand_display := r |}.

(** *** Building the page *)

Definition noteMap (name : string) : option JS.number :=
  if String.eqb name "C" then Some 0%float
  else if String.eqb name "C#" then Some 1%float
  else if String.eqb name "D" then Some 2%float
  else if String.eqb name "D#" then Some 3%float
  else if String.eqb name "E" then Some 4%float
  else if String.eqb name "F" then Some 5%float
  else if String.eqb name "F#" then Some 6%float
  else if String.eqb name "G" then Some 7%float
  else if String.eqb name "G#" then Some 8%float
  else if String.eqb name "A" then Some 9%float
  else if String.eqb name "A#" then Some 10%float
  else if String.eqb name "B" then Some 11%float
  else None.

Definition digit_of (c : Ascii.ascii) : option Z :=
  let n := Ascii.nat_of_ascii c in
  if ((48 <=? n) && (n <=? 57))%nat then Some (Z.of_nat n - 48)%Z else None.

Definition is_note_letter (c : Ascii.ascii) : bool :=
  let n := Ascii.nat_of_ascii c in ((65 <=? n) && (n <=? 71))%nat.

(** [\d+]: the longest run of digits at the head, as the integer the
    digits spell. *)
Fixpoint digits (s : string) (acc : option Z) : option Z :=
  match s with
  | String c r =>
      match digit_of c with
      | Some v =>
          digits r (Some (match acc with Some a => a * 10 + v | None => v end)%Z)
      | None => acc
      end
  | EmptyString => acc
  end.

(** One attempt of [/([A-G]#?)(\d+)/] at the head of [s]. *)
Definition match_note_here (s : string) : option (string * Z) :=
  match s with
  | String c r =>
      if is_note_letter c then
        match r with
        | String "#"%char r' =>
            match digits r' None with
            | Some o => Some (String c "#", o)
            | None => None
            end
        | _ =>
            match digits r None with
            | Some o => Some (String c "", o)
            | None => None
            end
        end
      else None
  | EmptyString => None
  end.

(** [noteName.match(...)]: the leftmost position where the pattern fits. *)
Fixpoint match_note (s : string) : option (string * Z) :=
  match match_note_here s with
  | Some m => Some m
  | None => match s with String _ r => match_note r | EmptyString => None end
  end.

(** [parseInt] of a run of decimal digits is the Number value of the
    integer they spell (beyond 20 significant digits the language leaves
    the last bits to the implementation; the correctly rounded value is
    taken here).  A name that [noteMap] does not hold, [E#] or [B#],
    reads [undefined], and the sum is NaN. *)
Definition noteToMidi (noteName : string) : JS.number :=
  match match_note noteName with
  | None => 60
  | Some (note, match2) =>
      let octave := JS.of_Z match2 in
      let pitchClass :=
        match noteMap note with Some k => k | None => nan end in
      (octave + 1) * 12 + pitchClass
  end%float.

Definition createKey (noteName : string) (m : Z) : PianoKey :=
  {| data_note := noteName; data_midi := m; key_active := false;
     indicator_text := None; indicator_show := false |}.

Definition keyPattern : list (string * bool) :=
  [("C", true); ("D", true); ("E", false); ("F", true); ("G", true);
   ("A", true); ("B", false)].

(** The octaves 3 to 5 of the loop, each with its decimal spelling. *)
Definition octaves : list string := ["3"; "4"; "5"].

Definition white_keys : list PianoKey :=
  flat_map (fun octave =>
    map (fun keyInfo =>
           let noteName := fst keyInfo ++ octave in
           createKey noteName (JS.to_int (noteToMidi noteName))) keyPattern) octaves.

Definition black_keys : list PianoKey :=
  flat_map (fun octave =>
    flat_map (fun keyInfo : string * bool =>
           if snd keyInfo then
             let sharpName := fst keyInfo ++ "#" ++ octave in
             [createKey sharpName (JS.to_int (noteToMidi sharpName))]
           else []) keyPattern) octaves.

(** [createPianoKeys]: the container is emptied, then receives the
    white-keys container followed by the black-keys container. *)
Definition createPianoKeys (d : Document) : Document :=
  set_piano_keys (white_keys ++ black_keys) d.

Definition new_fingers : list FingerShape :=
  map (fun n => {| data_finger := n; finger_base := true;
                   finger_active := false |}) [1; 2; 3; 4; 5]%Z.

(** [createHandSVG]: five finger shapes, thumb to pinky, appended to the
    group of one hand (coordinates are layout only). *)
Definition createHandSVG (svg : list FingerShape) : list FingerShape :=
  svg ++ new_fingers.

Definition createHandVisualization (d : Document) : Document :=
  let d := set_hands (createHandSVG (right_hand_svg d)) (left_hand_svg d) d in
  set_hands (right_hand_svg d) (createHandSVG (left_hand_svg d)) d.

(** *** Notifications and timers *)

Definition showNotification (msg type : string) (w : World) : World :=
  {| app := app w; document := document w; timers := timers w;
     next_handle := next_handle w;
     notifications := notifications w ++ [{| message := msg; kind := type |}] |}.

(** [this.playbackTimer = setTimeout(() => this.playNextNote(), ms)] *)
Definition setTimeout (ms : JS.number) (w : World) : World :=
  {| app := set_playbackTimer (Some (next_handle w)) (app w);
     document := document w;
     timers := timers w ++ [{| handle := next_handle w; delay := ms |}];
     next_handle := Pos.succ (next_handle w);
     notifications := notifications w |}.

Definition clearTimeout (h : positive) (w : World) : World :=
  with_timers (filter (fun t => negb (Pos.eqb (handle t) h))) w.

(** *** The highlight synchronizer *)

Definition hand_text (n : Note) : string :=
  if String.eqb (hand n) "right" then "Right Hand" else "Left Hand".

Definition readout_of (n : Note) : Readout :=
  {| current_note := pitch n;
     finger_info := Some (finger n, finger_name n);
     hand_position := hand_text n;
     current_time := offset n |}.

(** [displayCurrentNote(note)]; [None] is the TypeError raised when
    [note] is [undefined]. *)
Definition displayCurrentNote (note : option Note) (d : Document)
  : option Document :=
  match note with
  | Some n => Some (set_readout (readout_of n) d)
  | None => None
  end.

Definition clear_key (k : PianoKey) : PianoKey :=
  {| data_note := data_note k; data_midi := data_midi k;
     key_active := false; indicator_text := indicator_text k;
     indicator_show := false |}.

Definition clearKeyHighlights (d : Document) : Document :=
  set_piano_keys (map clear_key (piano_keys d)) d.

Definition activate_key (f : Z) (k : PianoKey) : PianoKey :=
  {| data_note := data_note k; data_midi := data_midi k;
     key_active := true; indicator_text := Some f;
     indicator_show := true |}.

Definition highlightKey (note : Note) (d : Document) : Document :=
  let d := clearKeyHighlights d in
  set_piano_keys
    (update_first (fun k => Z.eqb (data_midi k) (midi note))
                  (activate_key (finger note)) (piano_keys d)) d.

Definition clear_finger (f : FingerShape) : FingerShape :=
  if finger_active f then
    {| data_finger := data_finger f; finger_base := true;
       finger_active := false |}
  else f.

Definition clearFingerHighlights (d : Document) : Document :=
  set_hands (map clear_finger (right_hand_svg d))
            (map clear_finger (left_hand_svg d)) d.

Definition activate_finger (f : FingerShape) : FingerShape :=
  {| data_finger := data_finger f; finger_base := false;
     finger_active := true |}.

Definition highlightFinger (note : Note) (d : Document) : Document :=
  let d := clearFingerHighlights d in
  let sel := update_first (fun f => Z.eqb (data_finger f) (finger note))
                          activate_finger in
  if String.eqb (hand note) "right"
  then set_hands (sel (right_hand_svg d)) (left_hand_svg d) d
  else set_hands (right_hand_svg d) (sel (left_hand_svg d)) d.

Definition clearAllHighlights (d : Document) : Document :=
  clearFingerHighlights (clearKeyHighlights d).

(** The three view calls [playNextNote] makes for the note it emits. *)
Definition render (note : Note) (d : Document) : Document :=
  highlightFinger note (highlightKey note (set_readout (readout_of note) d)).

Definition updateProgress (w : World) : World :=
  let n := List.length (notes (app w)) in
  let i := currentNoteIndex (app w) in
  let progress :=
    if (0 <? n)%nat then (JS.of_nat i / JS.of_nat n * 100)%float
    else 0%float in
  with_document (set_progress progress i) w.

(** *** The playback scheduler *)

Definition pausePlayback (w : World) : World :=
  let w := with_app (set_isPlaying false) w in
  let w := with_document (set_play_pause_label "Play") w in
  match playbackTimer (app w) with
  | Some h => clearTimeout h w
  | None => w
  end.

Definition playNextNote (w : World) : World :=
  let a := app w in
  if (negb (isPlaying a)
      || (List.length (notes a) <=? currentNoteIndex a)%nat)%bool
  then showNotification "Playback completed!" "success" (pausePlayback w)
  else
    match nth_error (notes a) (currentNoteIndex a) with
    | None => w        (* not reached: the index is below the length *)
    | Some note =>
        let w := with_document (render note) w in
        let w := updateProgress w in
        let nextNote := nth_error (notes a) (currentNoteIndex a + 1) in
        let delay :=
          match nextNote with
          | Some nextNote =>
              ((offset nextNote - offset note) * 1000 / playbackSpeed a)%float
          | None => (duration note * 1000 / playbackSpeed a)%float
          end in
        let w := with_app (set_currentNoteIndex (currentNoteIndex a + 1)) w in
        setTimeout (JS.Math_max delay 100%float) w
    end.

Definition startPlayback (w : World) : World :=
  if (List.length (notes (app w)) =? 0)%nat
  then showNotification "Please load a MIDI file first" "warning" w
  else
    let w := with_app (set_isPlaying true) w in
    let w := with_document (set_play_pause_label "Pause") w in
    playNextNote w.

Definition togglePlayback (w : World) : World :=
  if isPlaying (app w) then pausePlayback w else startPlayback w.

Definition resetPlayback (w : World) : World :=
  let w := pausePlayback w in
  let w := with_app (set_currentNoteIndex 0) w in
  let w := with_document clearAllHighlights w in
  let w := updateProgress w in
  with_document
    (set_readout {| current_note := "None"; finger_info := None;
                    hand_position := "None"; current_time := 0%float |}) w.

Definition setTempo (speed : JS.number) (w : World) : World :=
  let w := with_app (set_playbackSpeed speed) w in
  with_document (set_tempo_display (speed * 100)%float) w.

Definition setVisibleHands (hands : string) (w : World) : World :=
  let w := with_app (set_visibleHands hands) w in
  if String.eqb hands "right" then with_document (set_hand_display false true) w
  else if String.eqb hands "left" then with_document (set_hand_display true false) w
  else with_document (set_hand_display true true) w.

(** How a handler ends: normally, or by an uncaught TypeError that
    leaves the state as it was when raised. *)
Inductive Completion :=
| Normal (w : World)
| Throw (w : World).

Definition world_of (c : Completion) : World :=
  match c with Normal w | Throw w => w end.

Definition handleKeyboard (code : string) (w : World) : Completion :=
  if String.eqb code "Space" then Normal (togglePlayback w)
  else if String.eqb code "ArrowRight" then
    if (negb (isPlaying (app w))
        && (currentNoteIndex (app w) <? List.length (notes (app w)))%nat)%bool
    then
      let w := with_app (set_currentNoteIndex (currentNoteIndex (app w) + 1)) w in
      match displayCurrentNote
              (nth_error (notes (app w)) (currentNoteIndex (app w) - 1))
              (document w) with
      | Some d => Normal (updateProgress (with_document (fun _ => d) w))
      | None => Throw w
      end
    else Normal w
  else if String.eqb code "ArrowLeft" then
    if (negb (isPlaying (app w)) && (0 <? currentNoteIndex (app w))%nat)%bool
    then
      let w := with_app (set_currentNoteIndex (currentNoteIndex (app w) - 1)) w in
      match displayCurrentNote
              (nth_error (notes (app w)) (currentNoteIndex (app w)))
              (document w) with
      | Some d => Normal (updateProgress (with_document (fun _ => d) w))
      | None => Throw w
      end
    else Normal w
  else if String.eqb code "KeyR" then Normal (resetPlayback w)
  else Normal w.

(** The two manual steps, as the keys that trigger them. *)
Definition seekForward (w : World) : Completion := handleKeyboard "ArrowRight" w.
Definition seekBack (w : World) : Completion := handleKeyboard "ArrowLeft" w.


(** *** Loading *)

Record ResponseData := {
  r_notes : list Note;
  hand_positions : list string;
  difficulty : option Difficulty;     (* None: the field is missing *)
  total_notes : Z
}.

(** [displayDifficultyInfo(difficulty)]; [None] is the TypeError raised
    when the response carries no difficulty. *)
Definition displayDifficultyInfo (difficulty : option Difficulty)
           (d : Document) : option Document :=
  match difficulty with
  | Some diff => Some (set_difficulty diff d)
  | None => None
  end.

(** The [catch] block. *)
Definition load_error (w : World) : World :=
  showNotification
    "Error loading MIDI file. Make sure the backend is running." "error" w.

(** [loadMIDI], from the point where its request settles: nothing
    before that point reads or writes the engine. *)
Definition loadMIDI (r : FetchResult ResponseData) (w : World) : World :=
  match r with
  | Json data =>
      let w := with_app (set_notes (r_notes data)) w in
      let w := with_app (set_handPositions (hand_positions data)) w in
      match displayDifficultyInfo (difficulty data) (document w) with
      | None => load_error w              (* raised inside try: caught *)
      | Some d =>
          let w := with_document (fun _ => d) w in
          let w := with_document (set_loaded (total_notes data)) w in
          showNotification "MIDI file loaded successfully!" "success" w
      end
  | _ => load_error w
  end.

(** *** The event loop *)

(** An armed timer comes due: the browser drops it from its table and
    runs the callback. *)
Definition fire (h : positive) (w : World) : World :=
  if existsb (fun t => Pos.eqb (handle t) h) (timers w)
  then playNextNote (clearTimeout h w)
  else w.

(** What the listeners of [setupEventListeners] and the armed timers
    react to.  A click on a piano key ([playKey]) and the timers a
    notification sets for its own animation touch nothing of [World]
    and are left out. *)
Inductive Event :=
| LoadSettles (r : FetchResult ResponseData)   (* load-midi clicked, request settled *)
| ClickPlayPause
| ClickReset
| TempoInput (speed : JS.number)               (* the slider value, parsed *)
| HandSelect (hands : string)
| Resize                                       (* the debounced resize callback *)
| KeyDown (code : string)
| TimerDue (h : positive).

Definition step (e : Event) (w : World) : World :=
  match e with
  | LoadSettles r => loadMIDI r w
  | ClickPlayPause => togglePlayback w
  | ClickReset => resetPlayback w
  | TempoInput s => setTempo s w
  | HandSelect h => setVisibleHands h w
  | Resize => with_document createPianoKeys w
  | KeyDown c => world_of (handleKeyboard c w)
  | TimerDue h => fire h w
  end.

Definition run (es : list Event) (w : World) : World :=
  fold_left (fun w e => step e w) es w.

(** [new PianoLearningApp()] on a page. *)
Definition constructor (page : Document) : World :=
  {| app := {| notes := []; handPositions := []; currentNoteIndex := 0;
               isPlaying := false; playbackSpeed := 1%float;
               visibleHands := "both"; playbackTimer := None |};
     document := createHandVisualization (createPianoKeys page);
     timers := []; next_handle := 1%positive; notifications := [] |}.

Inductive reachable (page : Document) : World -> Prop :=
| reach_start : reachable page (constructor page)
| reach_step e w : reachable page w -> reachable page (step e w).

(** A page before the script runs, for the examples below. *)
Definition blank_page : Document :=
  {| piano_keys := []; right_hand_svg := []; left_hand_svg := [];
     readout := {| current_note := "None"; finger_info := None;
                   hand_position := "None"; current_time := 0%float |};
     progress_fill := 0%float; notes_played := 0;
     play_pause_label := "Play"; play_pause_disabled := true;
     total_notes_text := None; difficulty_badge := None;
     tempo_display := 100%float;
     left_hand_display := true; right_hand_display := true |}.

End PianoLearningApp.

(** ** The first engine ([frontend/script.js]) *)

Module PianoLearningAppMVP.

Local Open Scope string_scope.

Record Note := {
  pitch : string;
  midi : Z;
  duration : JS.number;
  finger : string;
  hand : string
}.

Record PianoKey := {
  data_note : string;
  data_midi : Z;
  key_active : bool                  (* class 'active' *)
}.

Record FingerCircle := {
  id : string;
  finger_active : bool               (* class 'active' *)
}.

(** The page: keys and finger circles in document order, and the note
    the three lines of the info panel were last formatted from. *)
Record Document := {
  piano_keys : list PianoKey;
  hand_group : list FingerCircle;
  info_panel : option Note;
  play_pause_label : string
}.

(** The app object with the browser's table of armed timers (the handle
    [setTimeout] returns is dropped by the code) and the console. *)
Record World := {
  currentNoteIndex : nat;
  notes : list Note;
  isPlaying : bool;
  animationId : option Z;
  document : Document;
  timers : list (positive * JS.number);   (* handle, delay *)
  next_handle : positive;
  console : list string
}.

Definition with_document (f : Document -> Document) (w : World) : World :=
  {| currentNoteIndex := currentNoteIndex w; notes := notes w;
     isPlaying := isPlaying w; animationId := animationId w;
     document := f (document w); timers := timers w;
     next_handle := next_handle w; console := console w |}.

Definition set_currentNoteIndex (i : nat) (w : World) : World :=
  {| currentNoteIndex := i; notes := notes w;
     isPlaying := isPlaying w; animationId := animationId w;
     document := document w; timers := timers w;
     next_handle := next_handle w; console := console w |}.

Definition set_notes (l : list Note) (w : World) : World :=
  {| currentNoteIndex := currentNoteIndex w; notes := l;
     isPlaying := isPlaying w; animationId := animationId w;
     document := document w; timers := timers w;
     next_handle := next_handle w; console := console w |}.

Definition set_isPlaying (b : bool) (w : World) : World :=
  {| currentNoteIndex := currentNoteIndex w; notes := notes w;
     isPlaying := b; animationId := animationId w;
     document := document w; timers := timers w;
     next_handle := next_handle w; console := console w |}.

Definition log (line : string) (w : World) : World :=
  {| currentNoteIndex := currentNoteIndex w; notes := notes w;
     isPlaying := isPlaying w; animationId := animationId w;
     document := document w; timers := timers w;
     next_handle := next_handle w; console := console w ++ [line] |}.

Definition setTimeout (ms : JS.number) (w : World) : World :=
  {| currentNoteIndex := currentNoteIndex w; notes := notes w;
     isPlaying := isPlaying w; animationId := animationId w;
     document := document w;
     timers := timers w ++ [(next_handle w, ms)];
     next_handle := Pos.succ (next_handle w); console := console w |}.

Definition drop_timer (h : positive) (w : World) : World :=
  {| currentNoteIndex := currentNoteIndex w; notes := notes w;
     isPlaying := isPlaying w; animationId := animationId w;
     document := document w;
     timers := filter (fun t => negb (Pos.eqb (fst t) h)) (timers w);
     next_handle := next_handle w; console := console w |}.

Definition set_keys (l : list PianoKey) (d : Document) : Document :=
  {| piano_keys := l; hand_group := hand_group d;
     info_panel := info_panel d; play_pause_label := play_pause_label d |}.

Definition set_fingers (l : list FingerCircle) (d : Document) : Document :=
  {| piano_keys := piano_keys d; hand_group := l;
     info_panel := info_panel d; play_pause_label := play_pause_label d |}.

Definition set_info (n : Note) (d : Document) : Document :=
  {| piano_keys := piano_keys d; hand_group := hand_group d;
     info_panel := Some n; play_pause_label := play_pause_label d |}.

Definition set_label (s : string) (d : Document) : Document :=
  {| piano_keys := piano_keys d; hand_group := hand_group d;
     info_panel := info_panel d; play_pause_label := s |}.

(** *** Building the page *)

Definition createPianoKeys (d : Document) : Document :=
  let whiteKeys := ["C"; "D"; "E"; "F"; "G"; "A"; "B"] in
  let blackKeys := ["C#"; "D#"; "F#"; "G#"; "A#"] in
  let mk base :=
    map (fun p : nat * string =>
           {| data_note := snd p; data_midi := base + Z.of_nat (fst p);
              key_active := false |}) in
  set_keys (piano_keys d
            ++ mk 60%Z (combine (seq 0 7) whiteKeys)
            ++ mk 61%Z (combine (seq 0 5) blackKeys)) d.

Definition createHandVisualization (d : Document) : Document :=
  set_fingers (hand_group d
               ++ map (fun i => {| id := i; finger_active := false |})
                      ["thumb"; "index"; "middle"; "ring"; "pinky"]) d.

(** *** The finger heuristic *)

Inductive FingerLabel := thumb | index | middle | ring | pinky.

(** [midi % 12] is the JavaScript remainder, which takes the sign of
    the dividend. *)
Definition assignFingerToNote (note : Note) : FingerLabel :=
  let midi := midi note in
  let noteInOctave := Z.rem midi 12 in
  if (noteInOctave <=? 1)%Z then thumb
  else if (noteInOctave <=? 3)%Z then index
  else if (noteInOctave <=? 5)%Z then middle
  else if (noteInOctave <=? 7)%Z then ring
  else if (noteInOctave <=? 9)%Z then pinky
  else pinky.

(** *** Highlighting *)

Definition clearHighlights (d : Document) : Document :=
  let d :=
    set_keys (map (fun k => {| data_note := data_note k;
                               data_midi := data_midi k;
                               key_active := false |}) (piano_keys d)) d in
  set_fingers (map (fun f => {| id := id f; finger_active := false |})
                   (hand_group d)) d.

(** How a call ends: normally, or by an uncaught TypeError that leaves
    the state as it was when raised. *)
Inductive Completion :=
| Normal (w : World)
| Throw (w : World).

Definition world_of (c : Completion) : World :=
  match c with Normal w | Throw w => w end.

Definition showHandPosition (note : option Note) (w : World) : Completion :=
  let w := with_document clearHighlights w in
  match note with
  | None => Throw w                  (* note.midi of undefined *)
  | Some note =>
      let w :=
        with_document
          (fun d =>
             set_keys (update_first (fun k => Z.eqb (data_midi k) (midi note))
                         (fun k => {| data_note := data_note k;
                                      data_midi := data_midi k;
                                      key_active := true |})
                         (piano_keys d)) d) w in
      let w :=
        with_document
          (fun d =>
             set_fingers (update_first (fun f => String.eqb (id f) (finger note))
                            (fun f => {| id := id f; finger_active := true |})
                            (hand_group d)) d) w in
      Normal (with_document (set_info note) w)
  end.

Definition updateInfo (w : World) : Completion :=
  if (0 <? List.length (notes w))%nat
  then showHandPosition (nth_error (notes w) (currentNoteIndex w)) w
  else Normal w.

Definition sample : list Note :=
  [ {| pitch := "C4"; midi := 60; duration := 1%float; finger := "thumb"; hand := "right" |};
    {| pitch := "D4"; midi := 62; duration := 1%float; finger := "index"; hand := "right" |};
    {| pitch := "E4"; midi := 64; duration := 1%float; finger := "middle"; hand := "right" |};
    {| pitch := "F4"; midi := 65; duration := 1%float; finger := "thumb"; hand := "right" |};
    {| pitch := "G4"; midi := 67; duration := 1%float; finger := "index"; hand := "right" |};
    {| pitch := "A4"; midi := 69; duration := 1%float; finger := "middle"; hand := "right" |};
    {| pitch := "B4"; midi := 71; duration := 1%float; finger := "ring"; hand := "right" |};
    {| pitch := "C5"; midi := 72; duration := 1%float; finger := "pinky"; hand := "right" |} ].

Definition loadSampleData (w : World) : Completion :=
  updateInfo (set_notes sample w).

(** *** Playback *)

Definition pause (w : World) : World :=
  let w := set_isPlaying false w in
  with_document (set_label "Play") w.
  (* animationId is never assigned, so nothing is cancelled *)

Definition playNextNote (w : World) : World :=
  if (negb (isPlaying w)
      || (List.length (notes w) <=? currentNoteIndex w)%nat)%bool
  then pause w
  else
    match nth_error (notes w) (currentNoteIndex w) with
    | None => w        (* not reached: the index is below the length *)
    | Some note =>
        let w := world_of (showHandPosition (Some note) w) in
        setTimeout (duration note * 1000)%float w
    end.

Definition play (w : World) : World :=
  if (List.length (notes w) =? 0)%nat then w
  else
    let w := set_isPlaying true w in
    let w := with_document (set_label "Pause") w in
    playNextNote w.

Definition togglePlay (w : World) : World :=
  if isPlaying w then pause w else play w.

Definition reset (w : World) : Completion :=
  let w := set_currentNoteIndex 0 w in
  let w := pause w in
  let w := with_document clearHighlights w in
  updateInfo w.

(** The callback of the timer: advance, then play. *)
Definition fire (h : positive) (w : World) : World :=
  if existsb (fun t => Pos.eqb (fst t) h) (timers w)
  then
    let w := drop_timer h w in
    let w := set_currentNoteIndex (currentNoteIndex w + 1) w in
    playNextNote w
  else w.

(** *** Loading *)

Record ResponseData := {
  success : bool;
  r_notes : list Note;
  total_notes : Z
}.

Definition loadMIDI (r : FetchResult ResponseData) (w : World)
  : Completion :=
  let w := log "Loading MIDI file from backend..." w in
  match r with
  | Json data =>
      if success data then
        let w := set_notes (r_notes data) w in
        let w := set_currentNoteIndex 0 w in
        match updateInfo w with
        | Normal w => Normal (log "Loaded notes from MIDI file" w)
        | Throw w =>                 (* raised inside try: caught below *)
            loadSampleData (log "Error loading MIDI file" w)
        end
      else Normal (log "Failed to load MIDI data" w)
  | _ =>
      (* Fallback to sample data if backend is not available *)
      loadSampleData (log "Error loading MIDI file" w)
  end.

(** [new PianoLearningApp()] on a page. *)
Definition constructor (page : Document) : World :=
  world_of
    (loadSampleData
       {| currentNoteIndex := 0; notes := []; isPlaying := false;
          animationId := None;
          document := createHandVisualization (createPianoKeys page);
          timers := []; next_handle := 1%positive; console := [] |}).

Definition blank_page : Document :=
  {| piano_keys := []; hand_group := []; info_panel := None;
     play_pause_label := "Play" |}.

End PianoLearningAppMVP.

(** ** The heuristic table as the specification words it *)

Definition heuristic_table (noteInOctave : Z) : option PianoLearningAppMVP.FingerLabel :=
  if ((0 <=? noteInOctave) && (noteInOctave <=? 1))%Z%bool
  then Some PianoLearningAppMVP.thumb
  else if ((2 <=? noteInOctave) && (noteInOctave <=? 3))%Z%bool
  then Some PianoLearningAppMVP.index
  else if ((4 <=? noteInOctave) && (noteInOctave <=? 5))%Z%bool
  then Some PianoLearningAppMVP.middle
  else if ((6 <=? noteInOctave) && (noteInOctave <=? 7))%Z%bool
  then Some PianoLearningAppMVP.ring
  else if ((8 <=? noteInOctave) && (noteInOctave <=? 11))%Z%bool
  then Some PianoLearningAppMVP.pinky
  else None.

(** ** Scenarios used by the examples *)

Module Scenario.
Import PianoLearningApp.
Local Open Scope string_scope.

Definition note (p : string) (m : Z) (o d : JS.number) : Note :=
  {| pitch := p; midi := m; offset := o; duration := d;
     finger := 1; finger_name := "Thumb"; hand := "right" |}.

Definition easy : Difficulty :=
  {| level := "Beginner"; score := 1%float; d_total_notes := 2;
     note_span := 2; factors := [] |}.

Definition response (l : list Note) : ResponseData :=
  {| r_notes := l; hand_positions := []; difficulty := Some easy;
     total_notes := Z.of_nat (List.length l) |}.

Definition c4 := note "C4" 60 0%float 1%float.
Definition d4 := note "D4" 62 1%float 1%float.
Definition e4 := note "E4" 64 2%float 1%float.

(** A fresh engine on the blank page. *)
Definition fresh : World := constructor blank_page.

(** Three notes loaded, playback started: the first note is showing
    and one advance is armed. *)
Definition playing : World :=
  run [LoadSettles (Json (response [c4; d4; e4])); ClickPlayPause] fresh.

(** The same piece played to its end. *)
Definition completed : World :=
  run [TimerDue 1; TimerDue 2; TimerDue 3] playing.

(** The state in which the callback of timer 1 runs. *)
Definition due : World := clearTimeout 1 playing.

(** The F above middle C, for the first engine. *)
Definition f4 : PianoLearningAppMVP.Note :=
  {| PianoLearningAppMVP.pitch := "F4"; PianoLearningAppMVP.midi := 65;
     PianoLearningAppMVP.duration := 1%float;
     PianoLearningAppMVP.finger := "thumb";
     PianoLearningAppMVP.hand := "right" |}.

(** A fresh first engine: the sample sequence is loaded. *)
Definition fresh_mvp : PianoLearningAppMVP.World :=
  PianoLearningAppMVP.constructor PianoLearningAppMVP.blank_page.
End Scenario.

(** ** State predicates *)

Section Predicates.
Import PianoLearningApp.

(** Every armed advance is the one [playbackTimer] names, there is at
    most one, and none while not playing. *)
Definition timers_inv (w : World) : Prop :=
  (forall t, In t (timers w) -> playbackTimer (app w) = Some (handle t))
  /\ List.length (timers w) <= 1
  /\ (isPlaying (app w) = false -> timers w = []).

(** The cursor is an index into the sequence, or its length. *)
Definition cursor_in_range (w : World) : Prop :=
  currentNoteIndex (app w) <= List.length (notes (app w)).
End Predicates.

(** ** Further definitions *)

(** *** Decimal spellings *)

Definition digit_char (d : nat) : ascii := ascii_of_nat (48 + d).

(** The string of the decimal digits [ds], most significant first. *)
Fixpoint decimal (ds : list nat) : string :=
  match ds with
  | [] => EmptyString
  | d :: r => String (digit_char d) (decimal r)
  end.

(** The number the digits spell. *)
Definition decimal_value (ds : list nat) : Z :=
  fold_left (fun a d => a * 10 + Z.of_nat d)%Z ds 0%Z.

(** *** The clock *)

(** The advance that is armed comes due. *)
Definition tick (w : PianoLearningApp.World) : PianoLearningApp.World :=
  match PianoLearningApp.timers w with
  | t :: _ => PianoLearningApp.fire (PianoLearningApp.handle t) w
  | [] => w
  end.

(** *** The keyboard of the first engine *)

(** Names and MIDI numbers of the keys of a page, in document order. *)
Definition key_layout (d : PianoLearningAppMVP.Document) : list (string * Z) :=
  map (fun k => (PianoLearningAppMVP.data_note k,
                 PianoLearningAppMVP.data_midi k))
      (PianoLearningAppMVP.piano_keys d).

(** * Properties *)

(** ** Finger heuristic *)

Lemma rem_12_nonneg (m : Z) : (0 <= m)%Z -> Z.rem m 12 = (m mod 12)%Z.
Proof. intros H. apply Z.rem_mod_nonneg; lia. Qed.

(** C4: for a non-negative MIDI number the heuristic returns the finger
    the table gives for [midi mod 12] (0-1 thumb, 2-3 index, 4-5 middle,
    6-7 ring, 8-11 pinky); 60, 62, 65, 67 and 70 map to thumb, index,
    middle, ring and pinky. *)
Theorem assignFinger_follows_table (note : PianoLearningAppMVP.Note) :
  (0 <= PianoLearningAppMVP.midi note)%Z ->
  heuristic_table (PianoLearningAppMVP.midi note mod 12)
    = Some (PianoLearningAppMVP.assignFingerToNote note)
  /\ (PianoLearningAppMVP.midi note = 60%Z ->
      PianoLearningAppMVP.assignFingerToNote note = PianoLearningAppMVP.thumb)
  /\ (PianoLearningAppMVP.midi note = 62%Z ->
      PianoLearningAppMVP.assignFingerToNote note = PianoLearningAppMVP.index)
  /\ (PianoLearningAppMVP.midi note = 65%Z ->
      PianoLearningAppMVP.assignFingerToNote note = PianoLearningAppMVP.middle)
  /\ (PianoLearningAppMVP.midi note = 67%Z ->
      PianoLearningAppMVP.assignFingerToNote note = PianoLearningAppMVP.ring)
  /\ (PianoLearningAppMVP.midi note = 70%Z ->
      PianoLearningAppMVP.assignFingerToNote note = PianoLearningAppMVP.pinky).
Proof.
  intros Hm. unfold PianoLearningAppMVP.assignFingerToNote.
  split.
  - rewrite (rem_12_nonneg Hm).
    pose proof (Z.mod_pos_bound (PianoLearningAppMVP.midi note) 12 ltac:(lia)) as Hb.
    set (k := (PianoLearningAppMVP.midi note mod 12)%Z) in *.
    unfold heuristic_table.
    repeat match goal with
           | |- context [(?a <=? ?b)%Z] => destruct (Z.leb_spec a b); simpl
           end; try reflexivity; lia.
  - repeat split; intros ->; reflexivity.
Qed.

Lemma assignFinger_follows_table_F4 :
  (0 <= PianoLearningAppMVP.midi Scenario.f4)%Z
  /\ heuristic_table (65 mod 12) = Some PianoLearningAppMVP.middle.
Proof.
  assert (H : (0 <= PianoLearningAppMVP.midi Scenario.f4)%Z) by (simpl; lia).
  split; [exact H|].
  destruct (assignFinger_follows_table Scenario.f4 H) as [Ht _].
  exact Ht.
Defined.

(** ** Signs through binary64 rounding *)

Section Binary64.
Local Open Scope Z_scope.

Lemma shr_1_nonneg mrs : 0 <= shr_m mrs -> 0 <= shr_m (shr_1 mrs).
Proof.
  destruct mrs as [m r s]. simpl.
  destruct m as [|[p|p|]|[p|p|]]; simpl; lia.
Qed.

Lemma iter_pos_invariant (A : Type) (P : A -> Prop) (f : A -> A) :
  (forall x, P x -> P (f x)) -> forall n x, P x -> P (iter_pos f n x).
Proof.
  intros Hf. induction n as [n IH|n IH|]; intros x Hx; simpl; auto.
Qed.

Lemma shr_nonneg mrs e n : 0 <= shr_m mrs -> 0 <= shr_m (fst (shr mrs e n)).
Proof.
  intros H. unfold shr. destruct n; simpl; auto.
  apply iter_pos_invariant with (P := fun r => 0 <= shr_m r); auto.
  exact shr_1_nonneg.
Qed.

Lemma shr_record_of_loc_m m l : shr_m (shr_record_of_loc m l) = m.
Proof. destruct l as [|[| |]]; reflexivity. Qed.

Lemma shr_fexp_nonneg m e l :
  0 <= m -> 0 <= shr_m (fst (shr_fexp prec emax m e l)).
Proof.
  intros H. unfold shr_fexp. apply shr_nonneg.
  rewrite shr_record_of_loc_m. exact H.
Qed.

Lemma round_nearest_even_nonneg m l : 0 <= m -> 0 <= round_nearest_even m l.
Proof.
  intros H. unfold round_nearest_even.
  destruct l as [|[| |]]; try destruct (Z.even m); lia.
Qed.

Lemma binary_round_aux_sign m e l :
  0 <= m -> sign_set (binary_round_aux prec emax true m e l) = true.
Proof.
  intros H. unfold binary_round_aux.
  pose proof (shr_fexp_nonneg e l H) as H1.
  destruct (shr_fexp prec emax m e l) as [mrs' e'] eqn:E1. simpl in H1.
  pose proof (round_nearest_even_nonneg (loc_of_shr_record mrs') H1) as H2.
  pose proof (shr_fexp_nonneg e' loc_Exact H2) as H3.
  destruct (shr_fexp prec emax _ e' loc_Exact) as [mrs'' e''] eqn:E2.
  simpl in H3.
  destruct (shr_m mrs'') as [|p|p]; simpl; try lia; auto.
  match goal with |- context [if ?c then _ else _] => destruct c end;
    reflexivity.
Qed.

Lemma SF64mul_sign x m e :
  sign_set x = true ->
  sign_set (SF64mul x (S754_finite false m e)) = true.
Proof.
  destruct x as [[|]|[|]| |[|] mx ex]; simpl; intros H;
    try discriminate; try reflexivity.
  apply binary_round_aux_sign. lia.
Qed.

Lemma shiftl_nonneg a n : 0 <= a -> 0 <= Z.shiftl a n.
Proof. intros H. apply Z.shiftl_nonneg. exact H. Qed.

Lemma SFdiv_core_binary_nonneg mx ex my ey :
  0 <= fst (fst (SFdiv_core_binary prec emax (Zpos mx) ex (Zpos my) ey)).
Proof.
  unfold SFdiv_core_binary.
  set (s := _ - _ - Z.min _ _).
  set (m' := match s with Z0 => _ | Zpos _ => _ | Zneg _ => _ end).
  assert (Hm : 0 <= m').
  { subst m'. destruct s; try lia. apply shiftl_nonneg. lia. }
  pose proof (Z_div_mod m' (Zpos my) ltac:(lia)) as Hd.
  destruct (Z.div_eucl m' (Zpos my)) as [q r]. simpl.
  destruct Hd as [Hq Hr]. nia.
Qed.

Lemma SF64div_sign x m e :
  sign_set x = true ->
  sign_set (SF64div x (S754_finite false m e)) = true.
Proof.
  destruct x as [[|]|[|]| |[|] mx ex]; simpl; intros H;
    try discriminate; try reflexivity.
  pose proof (SFdiv_core_binary_nonneg mx ex m e) as Hq.
  unfold SF64div, SFdiv.
  destruct (SFdiv_core_binary prec emax (Zpos mx) ex (Zpos m) e)
    as [[mz ez] lz]. simpl in Hq.
  apply binary_round_aux_sign. exact Hq.
Qed.

Lemma SFcompare_refl x : x <> S754_nan -> SFcompare x x = Some Eq.
Proof.
  destruct x as [s|[|]| |[|] m e]; simpl; intros H;
    try reflexivity; try congruence;
    rewrite Z.compare_refl, Pos.compare_cont_refl; reflexivity.
Qed.

Lemma SFltb_not_nan x y :
  SFltb x y = true -> x <> S754_nan /\ y <> S754_nan.
Proof.
  unfold SFltb. destruct x, y; simpl; intros H; split; congruence.
Qed.

Lemma sign_set_below x m e :
  sign_set x = true -> SFltb x (S754_finite false m e) = true.
Proof.
  destruct x as [[|]|[|]| |[|] mx ex]; simpl; intros H;
    try discriminate; reflexivity.
Qed.

Lemma below_zero_sign_set x :
  SFltb x (S754_zero false) = true -> sign_set x = true.
Proof.
  destruct x as [[|]|[|]| |[|] mx ex]; simpl; intros H;
    try discriminate; reflexivity.
Qed.

Lemma positive_finite x :
  SFltb (S754_zero false) x = true ->
  SFltb x (S754_infinity false) = true ->
  exists m e, x = S754_finite false m e.
Proof.
  destruct x as [[|]|[|]| |[|] mx ex]; simpl; intros H1 H2;
    try discriminate; eauto.
Qed.
End Binary64.

(** ** Facts on [Math.max] and on the delay expression *)

Section Numbers.
Local Open Scope float_scope.

Lemma ltb_not_nan a b :
  (a <? b) = true -> PrimFloat.is_nan a = false /\ PrimFloat.is_nan b = false.
Proof.
  rewrite ltb_spec. intros H. apply SFltb_not_nan in H as [Ha Hb].
  unfold PrimFloat.is_nan. rewrite !eqb_spec. unfold SFeqb.
  rewrite !SFcompare_refl by assumption. auto.
Qed.

(** A value below the floor is raised to the floor. *)
Lemma Math_max_floor a b : (a <? b) = true -> JS.Math_max a b = b.
Proof.
  intros H. unfold JS.Math_max.
  destruct (ltb_not_nan H) as [-> ->]. simpl. rewrite H. reflexivity.
Qed.

(** A negative difference, scaled by 1000 and divided by a positive
    finite speed, is below 100. *)
Lemma negative_delay_below_floor diff speed :
  (diff <? 0) = true -> (0 <? speed) = true -> (speed <? infinity) = true ->
  (diff * 1000 / speed <? 100) = true.
Proof.
  rewrite !ltb_spec, div_spec, mul_spec.
  change (Prim2SF 0) with (S754_zero false).
  change (Prim2SF infinity) with (S754_infinity false).
  change (Prim2SF 1000) with (S754_finite false 8796093022208000 (-43)).
  change (Prim2SF 100) with (S754_finite false 7036874417766400 (-46)).
  intros Hd Hs1 Hs2.
  destruct (positive_finite _ Hs1 Hs2) as (m & e & Hs).
  rewrite Hs.
  apply sign_set_below, SF64div_sign, SF64mul_sign.
  apply below_zero_sign_set, Hd.
Qed.
End Numbers.

(** ** The wait before the next advance *)

Section Delay.
Import PianoLearningApp.
Local Open Scope float_scope.

(** C2: when [playNextNote] emits the note at the cursor it arms one
    timer whose delay is [Math.max(d, 100)], with [d] the offset
    difference to the next note times 1000 over the speed, or, for the
    last note, the duration times 1000 over the speed.  A negative
    offset difference (at a positive finite speed) gives exactly 100;
    offsets 0 and 1 give 1000 at speed 1 and 500 at speed 2. *)
Theorem scheduled_advance_wait (w : World) (cur : Note) :
  isPlaying (app w) = true ->
  nth_error (notes (app w)) (currentNoteIndex (app w)) = Some cur ->
  let speed := playbackSpeed (app w) in
  let next := nth_error (notes (app w)) (currentNoteIndex (app w) + 1) in
  exists wait,
    timers (playNextNote w)
    = (timers w ++ [{| handle := next_handle w; delay := wait |}])%list
    /\ wait = JS.Math_max
                match next with
                | Some nx => (offset nx - offset cur) * 1000 / speed
                | None => duration cur * 1000 / speed
                end 100
    /\ (forall nx, next = Some nx ->
          (offset nx - offset cur <? 0) = true ->
          (0 <? speed) = true -> (speed <? infinity) = true ->
          wait = 100)
    /\ (forall nx, next = Some nx -> offset cur = 0 -> offset nx = 1 ->
          (speed = 1 -> wait = 1000) /\ (speed = 2 -> wait = 500)).
Proof.
  intros Hp Hcur speed next.
  assert (Hlt : (List.length (notes (app w)) <=? currentNoteIndex (app w))%nat
                = false).
  { apply Nat.leb_gt. apply nth_error_Some. congruence. }
  eexists. split; [|split; [reflexivity|split]].
  - unfold playNextNote. rewrite Hp, Hlt, Hcur. reflexivity.
  - intros nx Hnx Hneg Hs1 Hs2. fold next. rewrite Hnx.
    apply Math_max_floor, negative_delay_below_floor; assumption.
  - intros nx Hnx Hc Hn. fold next. rewrite Hnx, Hc, Hn.
    split; intros ->; reflexivity.
Qed.

Lemma scheduled_advance_wait_playing :
  isPlaying (app Scenario.due) = true
  /\ nth_error (notes (app Scenario.due)) (currentNoteIndex (app Scenario.due))
     = Some Scenario.d4
  /\ timers (playNextNote Scenario.due) = [ {| handle := 2; delay := 1000 |} ].
Proof.
  assert (Hp : isPlaying (app Scenario.due) = true) by reflexivity.
  assert (Hn : nth_error (notes (app Scenario.due))
                         (currentNoteIndex (app Scenario.due))
               = Some Scenario.d4) by reflexivity.
  destruct (scheduled_advance_wait Scenario.due Hp Hn) as (wait & Ht & Hw & _).
  repeat apply conj; [exact Hp | exact Hn |].
  rewrite Ht, Hw. reflexivity.
Defined.

(** Notes delivered out of order: the advance is armed 100 ms ahead. *)
Lemma out_of_order_wait :
  let w := run [LoadSettles (Json (Scenario.response
                                     [Scenario.e4; Scenario.c4]));
                ClickPlayPause] Scenario.fresh in
  map delay (timers w) = [100].
Proof. vm_compute. reflexivity. Qed.
End Delay.


(** ** Starting playback *)

Section Play.
Import PianoLearningApp.
Local Open Scope string_scope.

Lemma length_zero_nil (A : Type) (l : list A) :
  (List.length l =? 0)%nat = true <-> l = [].
Proof.
  destruct l; simpl; split; intros H; try reflexivity; discriminate.
Qed.



Lemma timers_clearTimeout_incl h w t :
  In t (timers (clearTimeout h w)) -> In t (timers w).
Proof.
  unfold clearTimeout, with_timers; simpl. intros H.
  apply filter_In in H. tauto.
Qed.

Lemma pausePlayback_app w :
  app (pausePlayback w) = set_isPlaying false (app w).
Proof.
  unfold pausePlayback; simpl.
  destruct (playbackTimer (app w)); reflexivity.
Qed.

Lemma pausePlayback_timers_incl w t :
  In t (timers (pausePlayback w)) -> In t (timers w).
Proof.
  unfold pausePlayback; simpl.
  destruct (playbackTimer (app w)); simpl; auto.
  intros H. apply filter_In in H. tauto.
Qed.

Lemma pausePlayback_next_handle w :
  next_handle (pausePlayback w) = next_handle w.
Proof.
  unfold pausePlayback; simpl.
  destruct (playbackTimer (app w)); reflexivity.
Qed.

(** C9: with a non-empty sequence and the cursor at its end,
    [startPlayback] leaves the cursor where it is and ends with
    [isPlaying] false; the sequence is kept and no advance is armed. *)
Theorem play_at_end_does_not_start (w : World) :
  notes (app w) <> [] ->
  currentNoteIndex (app w) = List.length (notes (app w)) ->
  currentNoteIndex (app (startPlayback w)) = currentNoteIndex (app w)
  /\ isPlaying (app (startPlayback w)) = false
  /\ notes (app (startPlayback w)) = notes (app w)
  /\ next_handle (startPlayback w) = next_handle w
  /\ (forall t, In t (timers (startPlayback w)) -> In t (timers w)).
Proof.
  intros Hne Hend. unfold startPlayback.
  destruct (List.length (notes (app w)) =? 0)%nat eqn:E.
  - apply length_zero_nil in E. contradiction.
  - unfold playNextNote. cbn [app with_app with_document isPlaying
      set_isPlaying notes currentNoteIndex negb orb].
    rewrite Hend, Nat.leb_refl.
    cbn [showNotification app timers next_handle].
    rewrite pausePlayback_app, pausePlayback_next_handle.
    repeat apply conj; try reflexivity.
    + simpl. exact Hend.
    + intros t Ht. apply pausePlayback_timers_incl in Ht. exact Ht.
Qed.

Lemma play_at_end_does_not_start_completed :
  notes (app Scenario.completed) <> []
  /\ currentNoteIndex (app Scenario.completed)
     = List.length (notes (app Scenario.completed))
  /\ currentNoteIndex (app (startPlayback Scenario.completed)) = 3
  /\ isPlaying (app (startPlayback Scenario.completed)) = false.
Proof.
  assert (Hne : notes (app Scenario.completed) <> []) by discriminate.
  assert (Hend : currentNoteIndex (app Scenario.completed)
                 = List.length (notes (app Scenario.completed)))
    by reflexivity.
  destruct (play_at_end_does_not_start Scenario.completed Hne Hend)
    as (H1 & H2 & _).
  repeat apply conj; [exact Hne | exact Hend | rewrite H1; reflexivity | exact H2].
Defined.

(** The first engine returns silently on an empty sequence, and likewise
    stops at once when the cursor is at the end. *)
Lemma mvp_play_on_empty w :
  PianoLearningAppMVP.notes w = [] -> PianoLearningAppMVP.play w = w.
Proof. intros H. unfold PianoLearningAppMVP.play. rewrite H. reflexivity. Qed.

Lemma mvp_play_at_end w :
  PianoLearningAppMVP.notes w <> [] ->
  PianoLearningAppMVP.currentNoteIndex w
    = List.length (PianoLearningAppMVP.notes w) ->
  PianoLearningAppMVP.currentNoteIndex (PianoLearningAppMVP.play w)
    = PianoLearningAppMVP.currentNoteIndex w
  /\ PianoLearningAppMVP.isPlaying (PianoLearningAppMVP.play w) = false.
Proof.
  intros Hne Hend. unfold PianoLearningAppMVP.play.
  destruct (List.length (PianoLearningAppMVP.notes w) =? 0)%nat eqn:E.
  - apply length_zero_nil in E. contradiction.
  - unfold PianoLearningAppMVP.playNextNote. simpl.
    rewrite Hend, Nat.leb_refl. simpl. auto.
Qed.
End Play.


(** ** Loading *)

Section Load.
Import PianoLearningApp.
Local Open Scope string_scope.

Lemma reachable_run page es w :
  reachable page w -> reachable page (run es w).
Proof.
  revert w. induction es as [|e es IH]; intros w H; simpl.
  - exact H.
  - apply IH. constructor. exact H.
Qed.

Lemma reachable_playing : reachable blank_page Scenario.playing.
Proof. apply reachable_run. constructor. Qed.

(** C1 as stated fails: a load that settles during playback leaves
    [isPlaying] true (and the cursor and the armed advance in place). *)
Lemma load_does_not_stop_playback :
  ~ (forall page w data,
        reachable page w -> difficulty data <> None ->
        currentNoteIndex (app (loadMIDI (Json data) w)) = 0
        /\ isPlaying (app (loadMIDI (Json data) w)) = false
        /\ timers (loadMIDI (Json data) w) = []).
Proof.
  intros H.
  destruct (H blank_page Scenario.playing (Scenario.response [Scenario.c4])
              reachable_playing) as (_ & Hp & _).
  - discriminate.
  - vm_compute in Hp. discriminate.
Qed.

(** C1 (amended): a successful load of [s] replaces the stored
    sequence with [s] and announces it; [isPlaying], the armed advance
    and its handle are left as they were. *)
Theorem load_replaces_sequence (data : ResponseData) (diff : Difficulty)
        (w : World) :
  difficulty data = Some diff ->
  notes (app (loadMIDI (Json data) w)) = r_notes data
  /\ isPlaying (app (loadMIDI (Json data) w)) = isPlaying (app w)
  /\ timers (loadMIDI (Json data) w) = timers w
  /\ playbackTimer (app (loadMIDI (Json data) w)) = playbackTimer (app w)
  /\ notifications (loadMIDI (Json data) w)
     = (notifications w
          ++ [{| message := "MIDI file loaded successfully!";
                 kind := "success" |}])%list.
Proof.
  intros Hd. unfold loadMIDI. rewrite Hd. simpl.
  repeat apply conj; reflexivity.
Qed.

Lemma load_replaces_sequence_while_playing :
  difficulty (Scenario.response [Scenario.c4]) = Some Scenario.easy
  /\ notes (app (loadMIDI (Json (Scenario.response [Scenario.c4]))
                          Scenario.playing)) = [Scenario.c4]
  /\ isPlaying (app (loadMIDI (Json (Scenario.response [Scenario.c4]))
                              Scenario.playing)) = true.
Proof.
  assert (Hd : difficulty (Scenario.response [Scenario.c4])
               = Some Scenario.easy) by reflexivity.
  destruct (load_replaces_sequence (Scenario.response [Scenario.c4])
              Scenario.playing Hd) as (H1 & H2 & _).
  repeat apply conj; [exact Hd | exact H1 | rewrite H2; reflexivity].
Defined.

(** The first engine replaces the sequence too, and also rewinds the
    cursor; it does not touch [isPlaying] or the timers either. *)
Lemma mvp_load_replaces_sequence data w :
  PianoLearningAppMVP.success data = true ->
  let w' := PianoLearningAppMVP.world_of
              (PianoLearningAppMVP.loadMIDI (Json data) w) in
  PianoLearningAppMVP.notes w' = PianoLearningAppMVP.r_notes data
  /\ PianoLearningAppMVP.currentNoteIndex w' = 0
  /\ PianoLearningAppMVP.isPlaying w' = PianoLearningAppMVP.isPlaying w
  /\ PianoLearningAppMVP.timers w' = PianoLearningAppMVP.timers w.
Proof.
  intros Hs. unfold PianoLearningAppMVP.loadMIDI. rewrite Hs.
  unfold PianoLearningAppMVP.updateInfo. simpl.
  destruct (PianoLearningAppMVP.r_notes data) as [|n l] eqn:E; simpl;
    repeat apply conj; reflexivity.
Qed.

(** C10 as stated fails: a failed load on a fresh enhanced engine
    leaves the sequence empty; no demo sequence is substituted. *)
Lemma failed_load_keeps_empty_sequence :
  ~ (forall page (r : FetchResult ResponseData) w,
        reachable page w -> failed r = true ->
        notes (app (loadMIDI r w)) <> []).
Proof.
  intros H.
  apply (H blank_page NetworkError Scenario.fresh); [constructor | | ];
    reflexivity.
Qed.
End Load.

(** ** Clear-then-set on a list of elements *)

Section ClearThenSet.
Variable A : Type.
Variables (p q : A -> bool) (c g : A -> A).

Hypothesis c_idem : forall x, c (c x) = c x.
Hypothesis p_c : forall x, p (c x) = p x.
Hypothesis p_g : forall x, p (g x) = p x.
Hypothesis g_absorbs : forall x, g (c (g x)) = g x.
Hypothesis q_c : forall x, q (c x) = false.

Lemma map_clear_idem l : map c (map c l) = map c l.
Proof.
  induction l as [|x l IH]; simpl; [reflexivity|].
  now rewrite c_idem, IH.
Qed.

Lemma set_after_clear_twice l :
  update_first p g (map c (update_first p g (map c l)))
  = update_first p g (map c l).
Proof.
  induction l as [|x l IH]; simpl; [reflexivity|].
  rewrite p_c. destruct (p x) eqn:E; simpl.
  - rewrite p_c, p_g, p_c, E, g_absorbs, map_clear_idem. reflexivity.
  - rewrite p_c, p_c, E, c_idem, IH. reflexivity.
Qed.

Lemma count_cleared l : count q (map c l) = 0.
Proof.
  unfold count. induction l as [|x l IH]; simpl; [reflexivity|].
  rewrite q_c. exact IH.
Qed.

Lemma count_set_after_clear l :
  count q (update_first p g (map c l)) <= 1.
Proof.
  induction l as [|x l IH]; simpl; [unfold count; simpl; lia|].
  rewrite p_c. destruct (p x).
  - pose proof (count_cleared l) as H0. unfold count in *. simpl.
    destruct (q (g (c x))); simpl; lia.
  - unfold count in *. simpl. rewrite q_c. exact IH.
Qed.
End ClearThenSet.

(** ** The highlight synchronizer *)

Section Highlight.
Import PianoLearningApp.

Lemma clear_key_idem k : clear_key (clear_key k) = clear_key k.
Proof. reflexivity. Qed.

Lemma activate_key_absorbs f k :
  activate_key f (clear_key (activate_key f k)) = activate_key f k.
Proof. reflexivity. Qed.

Lemma clear_finger_idem f : clear_finger (clear_finger f) = clear_finger f.
Proof.
  unfold clear_finger. destruct (finger_active f) eqn:E; simpl.
  - reflexivity.
  - rewrite E. reflexivity.
Qed.

Lemma clear_finger_data f : data_finger (clear_finger f) = data_finger f.
Proof. unfold clear_finger. destruct (finger_active f); reflexivity. Qed.

Lemma clear_finger_inactive f : finger_active (clear_finger f) = false.
Proof.
  unfold clear_finger. destruct (finger_active f) eqn:E; simpl; auto.
Qed.

Lemma activate_finger_absorbs f :
  activate_finger (clear_finger (activate_finger f)) = activate_finger f.
Proof. reflexivity. Qed.

Lemma highlightKey_twice note d :
  highlightKey note (highlightKey note d) = highlightKey note d.
Proof.
  unfold highlightKey, clearKeyHighlights, set_piano_keys. simpl.
  f_equal.
  apply set_after_clear_twice; intros; reflexivity.
Qed.

Lemma highlightFinger_twice note d :
  highlightFinger note (highlightFinger note d) = highlightFinger note d.
Proof.
  unfold highlightFinger, clearFingerHighlights, set_hands.
  destruct (String.eqb (hand note) "right"); simpl; f_equal.
  - apply set_after_clear_twice; intros;
      rewrite ?clear_finger_data; auto using clear_finger_idem.
  - apply map_clear_idem, clear_finger_idem.
  - apply map_clear_idem, clear_finger_idem.
  - apply set_after_clear_twice; intros;
      rewrite ?clear_finger_data; auto using clear_finger_idem.
Qed.

Lemma highlightFinger_keys note d :
  piano_keys (highlightFinger note d) = piano_keys d.
Proof.
  unfold highlightFinger.
  destruct (String.eqb (hand note) "right"); reflexivity.
Qed.

Lemma highlightFinger_highlightKey note note' d :
  highlightFinger note (highlightKey note' d)
  = highlightKey note' (highlightFinger note d).
Proof.
  unfold highlightFinger, highlightKey.
  destruct (String.eqb (hand note) "right"); reflexivity.
Qed.

Lemma highlightKey_set_readout note r d :
  highlightKey note (set_readout r d) = set_readout r (highlightKey note d).
Proof. reflexivity. Qed.

Lemma highlightFinger_set_readout note r d :
  highlightFinger note (set_readout r d)
  = set_readout r (highlightFinger note d).
Proof.
  unfold highlightFinger.
  destruct (String.eqb (hand note) "right"); reflexivity.
Qed.

Lemma set_readout_twice r d : set_readout r (set_readout r d) = set_readout r d.
Proof. reflexivity. Qed.

Lemma render_twice note d : render note (render note d) = render note d.
Proof.
  unfold render.
  repeat (rewrite highlightKey_set_readout
          || rewrite highlightFinger_set_readout).
  rewrite set_readout_twice.
  rewrite <- (highlightFinger_highlightKey note note (highlightKey note d)).
  rewrite highlightKey_twice, highlightFinger_twice. reflexivity.
Qed.

Lemma render_keys note d :
  piano_keys (render note d)
  = update_first (fun k => Z.eqb (data_midi k) (midi note))
                 (activate_key (finger note))
                 (map clear_key (piano_keys d)).
Proof. unfold render. rewrite highlightFinger_keys. reflexivity. Qed.

Lemma render_fingers_total note d :
  count finger_active (right_hand_svg (render note d))
  + count finger_active (left_hand_svg (render note d)) <= 1.
Proof.
  unfold render, highlightFinger, clearFingerHighlights.
  destruct (String.eqb (hand note) "right"); simpl.
  - rewrite (count_cleared finger_active clear_finger clear_finger_inactive).
    pose proof (@count_set_after_clear _
                  (fun f => Z.eqb (data_finger f) (finger note))
                  finger_active clear_finger activate_finger
                  (fun x => f_equal (fun z => Z.eqb z (finger note)) (clear_finger_data x))
                  clear_finger_inactive (right_hand_svg d)).
    lia.
  - rewrite (count_cleared finger_active clear_finger clear_finger_inactive).
    pose proof (@count_set_after_clear _
                  (fun f => Z.eqb (data_finger f) (finger note))
                  finger_active clear_finger activate_finger
                  (fun x => f_equal (fun z => Z.eqb z (finger note)) (clear_finger_data x))
                  clear_finger_inactive (left_hand_svg d)).
    lia.
Qed.

(** C8: rendering a note twice gives the page that rendering it once
    gives; after a render at most one key is active, at most one finger
    indicator is shown, and at most one finger is active over the two
    hand diagrams, hence at most one in each. *)
Theorem render_idempotent_single_active (note : Note) (d : Document) :
  render note (render note d) = render note d
  /\ count key_active (piano_keys (render note d)) <= 1
  /\ count indicator_show (piano_keys (render note d)) <= 1
  /\ count finger_active (right_hand_svg (render note d)) <= 1
  /\ count finger_active (left_hand_svg (render note d)) <= 1
  /\ count finger_active (right_hand_svg (render note d))
     + count finger_active (left_hand_svg (render note d)) <= 1.
Proof.
  pose proof (render_fingers_total note d) as Hf.
  repeat apply conj; try lia.
  - apply render_twice.
  - rewrite render_keys. apply count_set_after_clear; reflexivity.
  - rewrite render_keys. apply count_set_after_clear; reflexivity.
Qed.
End Highlight.


(** ** Manual stepping *)

Section Stepping.
Import PianoLearningApp.
Local Open Scope string_scope.

(** With the cursor within [0, length], stepping acts only while not
    playing.  Forward moves the cursor up by one unless it is at the
    length, and the readout then
    shows the note just passed, [notes[cursor - 1]] for the new cursor;
    back moves it down by one unless it is at 0, and the readout then
    shows the note stepped to, [notes[cursor]] for the new cursor.  At
    the ends, and while playing, the call changes nothing; it never
    raises. *)
Theorem manual_stepping (w : World) :
  currentNoteIndex (app w) <= List.length (notes (app w)) ->
  (isPlaying (app w) = true ->
     seekForward w = Normal w /\ seekBack w = Normal w)
  /\ (isPlaying (app w) = false ->
      (currentNoteIndex (app w) = List.length (notes (app w)) ->
         seekForward w = Normal w)
      /\ (currentNoteIndex (app w) = 0 -> seekBack w = Normal w)
      /\ (currentNoteIndex (app w) < List.length (notes (app w)) ->
          exists w' n,
            seekForward w = Normal w'
            /\ currentNoteIndex (app w') = currentNoteIndex (app w) + 1
            /\ nth_error (notes (app w')) (currentNoteIndex (app w') - 1)
               = Some n
            /\ readout (document w') = readout_of n
            /\ notes (app w') = notes (app w)
            /\ isPlaying (app w') = false)
      /\ (0 < currentNoteIndex (app w) ->
          exists w' n,
            seekBack w = Normal w'
            /\ currentNoteIndex (app w') = currentNoteIndex (app w) - 1
            /\ nth_error (notes (app w')) (currentNoteIndex (app w'))
               = Some n
            /\ readout (document w') = readout_of n
            /\ notes (app w') = notes (app w)
            /\ isPlaying (app w') = false)).
Proof.
  intros Hle. unfold seekForward, seekBack, handleKeyboard.
  cbn [String.eqb Ascii.eqb Bool.eqb andb].
  split.
  - intros ->. simpl. auto.
  - intros Hp. rewrite Hp. cbn [negb andb].
    repeat apply conj.
    + intros ->. rewrite Nat.ltb_irrefl. reflexivity.
    + intros ->. reflexivity.
    + intros Hlt. apply Nat.ltb_lt in Hlt as Hb. rewrite Hb.
      cbn [app with_app notes currentNoteIndex set_currentNoteIndex document].
      replace (currentNoteIndex (app w) + 1 - 1)
        with (currentNoteIndex (app w)) by lia.
      destruct (nth_error (notes (app w)) (currentNoteIndex (app w)))
        as [n|] eqn:En.
      * simpl. eexists _, n. repeat apply conj; try reflexivity.
        -- simpl.
           replace (currentNoteIndex (app w) + 1 - 1)
             with (currentNoteIndex (app w)) by lia.
           exact En.
        -- simpl. exact Hp.
      * apply nth_error_None in En. lia.
    + intros Hpos. apply Nat.ltb_lt in Hpos as Hb. rewrite Hb.
      cbn [app with_app notes currentNoteIndex set_currentNoteIndex document].
      destruct (nth_error (notes (app w)) (currentNoteIndex (app w) - 1))
        as [n|] eqn:En.
      * simpl. eexists _, n. repeat apply conj; try reflexivity.
        -- simpl. exact En.
        -- simpl. exact Hp.
      * apply nth_error_None in En. lia.
Qed.

Lemma manual_stepping_completed :
  currentNoteIndex (app Scenario.completed)
    <= List.length (notes (app Scenario.completed))
  /\ seekForward Scenario.completed = Normal Scenario.completed
  /\ currentNoteIndex (app (world_of (seekBack Scenario.completed))) = 2.
Proof.
  assert (Hle : currentNoteIndex (app Scenario.completed)
                <= List.length (notes (app Scenario.completed)))
    by (vm_compute; lia).
  destruct (manual_stepping Scenario.completed Hle) as (_ & H).
  destruct (H eq_refl) as (Hf & _ & _ & Hb).
  split; [exact Hle|]. split.
  - apply Hf. reflexivity.
  - destruct Hb as (w' & n & Hw & Hc & _); [vm_compute; lia|].
    rewrite Hw. simpl. rewrite Hc. reflexivity.
Defined.
End Stepping.


(** ** Timers *)

Section Timers.
Import PianoLearningApp.
Local Open Scope string_scope.

Lemma timers_inv_nil w : timers w = [] -> timers_inv w.
Proof.
  intros H. unfold timers_inv. rewrite H. simpl.
  repeat apply conj; auto. intros t [].
Qed.

Lemma filter_all_out (A : Type) (f : A -> bool) (l : list A) :
  (forall x, In x l -> f x = false) -> filter f l = [].
Proof.
  induction l as [|x l IH]; simpl; intros H; [reflexivity|].
  rewrite (H x (or_introl eq_refl)). apply IH. intros y Hy. apply H. now right.
Qed.

Lemma pausePlayback_cancels w :
  timers_inv w -> timers (pausePlayback w) = [].
Proof.
  intros (Hh & _ & _). unfold pausePlayback. simpl.
  destruct (playbackTimer (app w)) as [h|] eqn:E; simpl.
  - apply filter_all_out. intros t Ht.
    specialize (Hh t Ht). injection Hh as ->.
    rewrite Pos.eqb_refl. reflexivity.
  - destruct (timers w) as [|t l]; [reflexivity|].
    specialize (Hh t (or_introl eq_refl)). discriminate.
Qed.

Lemma playNextNote_inv w : timers w = [] -> timers_inv (playNextNote w).
Proof.
  intros Hnil. unfold playNextNote.
  destruct (negb (isPlaying (app w))
            || (List.length (notes (app w)) <=? currentNoteIndex (app w))%nat)%bool
    eqn:E.
  - apply timers_inv_nil. simpl.
    apply pausePlayback_cancels, timers_inv_nil, Hnil.
  - destruct (nth_error (notes (app w)) (currentNoteIndex (app w))) as [n|].
    + apply orb_false_iff in E as [Ep _]. apply negb_false_iff in Ep.
      unfold timers_inv. simpl. rewrite Hnil. simpl.
      repeat apply conj; [ | lia | congruence ].
      intros t [<-|[]]. reflexivity.
    + apply timers_inv_nil, Hnil.
Qed.

Lemma startPlayback_inv w : timers w = [] -> timers_inv (startPlayback w).
Proof.
  intros Hnil. unfold startPlayback.
  destruct (List.length (notes (app w)) =? 0)%nat.
  - apply timers_inv_nil. exact Hnil.
  - apply playNextNote_inv. exact Hnil.
Qed.

Lemma togglePlayback_inv w : timers_inv w -> timers_inv (togglePlayback w).
Proof.
  intros H. unfold togglePlayback.
  destruct (isPlaying (app w)) eqn:E.
  - apply timers_inv_nil, pausePlayback_cancels, H.
  - apply startPlayback_inv. apply H. exact E.
Qed.

Lemma resetPlayback_cancels w :
  timers_inv w -> timers (resetPlayback w) = [].
Proof. intros H. unfold resetPlayback. simpl. apply pausePlayback_cancels, H. Qed.

Lemma loadMIDI_timers r w :
  timers (loadMIDI r w) = timers w
  /\ isPlaying (app (loadMIDI r w)) = isPlaying (app w)
  /\ playbackTimer (app (loadMIDI r w)) = playbackTimer (app w).
Proof.
  destruct r as [| | |data]; simpl; auto.
  destruct (difficulty data); simpl; auto.
Qed.

Lemma timers_inv_ext w w' :
  timers w' = timers w ->
  isPlaying (app w') = isPlaying (app w) ->
  playbackTimer (app w') = playbackTimer (app w) ->
  timers_inv w -> timers_inv w'.
Proof. unfold timers_inv. intros -> -> ->. auto. Qed.

Lemma fire_inv h w : timers_inv w -> timers_inv (fire h w).
Proof.
  intros H. unfold fire.
  destruct (existsb (fun t => Pos.eqb (handle t) h) (timers w)) eqn:E;
    [|exact H].
  apply playNextNote_inv. simpl.
  destruct H as (_ & Hlen & _).
  destruct (timers w) as [|t [|t' l]]; simpl in *; try lia; try discriminate.
  rewrite orb_false_r in E. rewrite E. reflexivity.
Qed.

Lemma handleKeyboard_inv c w :
  timers_inv w -> timers_inv (world_of (handleKeyboard c w)).
Proof.
  intros H. unfold handleKeyboard.
  destruct (String.eqb c "Space"); [apply togglePlayback_inv, H|].
  destruct (String.eqb c "ArrowRight").
  { destruct (negb (isPlaying (app w))
              && (currentNoteIndex (app w) <? List.length (notes (app w)))%nat)%bool;
      [|exact H].
    cbv zeta.
    match goal with |- context [displayCurrentNote ?n ?d] =>
      destruct (displayCurrentNote n d) end;
      simpl; revert H; apply timers_inv_ext; reflexivity. }
  destruct (String.eqb c "ArrowLeft").
  { destruct (negb (isPlaying (app w)) && (0 <? currentNoteIndex (app w))%nat)%bool;
      [|exact H].
    cbv zeta.
    match goal with |- context [displayCurrentNote ?n ?d] =>
      destruct (displayCurrentNote n d) end;
      simpl; revert H; apply timers_inv_ext; reflexivity. }
  destruct (String.eqb c "KeyR"); [|exact H].
  apply timers_inv_nil, resetPlayback_cancels, H.
Qed.

Lemma step_inv e w : timers_inv w -> timers_inv (step e w).
Proof.
  intros H. destruct e as [r| | |s|hs| |c|h]; simpl.
  - destruct (loadMIDI_timers r w) as (H1 & H2 & H3).
    revert H. apply timers_inv_ext; assumption.
  - apply togglePlayback_inv, H.
  - apply timers_inv_nil, resetPlayback_cancels, H.
  - revert H. apply timers_inv_ext; reflexivity.
  - unfold setVisibleHands.
    destruct (String.eqb hs "right"); [|destruct (String.eqb hs "left")];
      revert H; apply timers_inv_ext; reflexivity.
  - revert H. apply timers_inv_ext; reflexivity.
  - apply handleKeyboard_inv, H.
  - apply fire_inv, H.
Qed.

Lemma reachable_timers_inv page w : reachable page w -> timers_inv w.
Proof.
  induction 1 as [|e w _ IH].
  - apply timers_inv_nil. reflexivity.
  - apply step_inv, IH.
Qed.

Lemma fire_without_timers h w : timers w = [] -> fire h w = w.
Proof. intros H. unfold fire. rewrite H. reflexivity. Qed.

(** C5 as stated fails: a load that settles while an advance is armed
    leaves it armed. *)
Lemma load_keeps_pending_advance :
  ~ (forall page w r, reachable page w -> timers (loadMIDI r w) = []).
Proof.
  intros H.
  specialize (H blank_page Scenario.playing
                (Json (Scenario.response [Scenario.c4])) reachable_playing).
  vm_compute in H. discriminate.
Qed.

(** The advance that survived the load later fires on the new
    sequence and moves the cursor. *)
Lemma surviving_advance_fires :
  let w := loadMIDI (Json (Scenario.response [Scenario.d4; Scenario.e4]))
                    Scenario.playing in
  currentNoteIndex (app w) = 1
  /\ currentNoteIndex (app (fire 1 w)) = 2
  /\ current_note (readout (document (fire 1 w))) = "E4".
Proof. vm_compute. repeat apply conj; reflexivity. Qed.

(** C5 (amended): in every reachable state at most one advance is
    armed, and none while not playing; [pausePlayback] and
    [resetPlayback] return with no advance armed, so that no timer
    coming due afterwards does anything; [loadMIDI] leaves the timer
    table as it is. *)
Theorem one_pending_advance (page : Document) (w : World) :
  reachable page w ->
  List.length (timers w) <= 1
  /\ (isPlaying (app w) = false -> timers w = [])
  /\ timers (pausePlayback w) = []
  /\ timers (resetPlayback w) = []
  /\ (forall h, fire h (pausePlayback w) = pausePlayback w)
  /\ (forall h, fire h (resetPlayback w) = resetPlayback w)
  /\ (forall r, timers (loadMIDI r w) = timers w).
Proof.
  intros Hr. pose proof (reachable_timers_inv Hr) as Hinv.
  pose proof (pausePlayback_cancels Hinv) as Hp.
  pose proof (resetPlayback_cancels Hinv) as Hreset.
  destruct Hinv as (_ & Hlen & Hidle).
  repeat apply conj; auto using fire_without_timers.
  intros r. apply loadMIDI_timers.
Qed.

Lemma one_pending_advance_playing :
  reachable blank_page Scenario.playing
  /\ List.length (timers Scenario.playing) <= 1
  /\ timers (pausePlayback Scenario.playing) = [].
Proof.
  destruct (one_pending_advance reachable_playing) as (H1 & _ & H2 & _).
  repeat apply conj; [exact reachable_playing | exact H1 | exact H2].
Defined.
End Timers.


(** ** The cursor bound *)

Section Cursor.
Import PianoLearningApp.
Local Open Scope string_scope.

Lemma cursor_in_range_ext w w' :
  notes (app w') = notes (app w) ->
  currentNoteIndex (app w') = currentNoteIndex (app w) ->
  cursor_in_range w -> cursor_in_range w'.
Proof. unfold cursor_in_range. intros -> ->. auto. Qed.

Lemma playNextNote_cursor w :
  cursor_in_range w -> cursor_in_range (playNextNote w).
Proof.
  intros H. unfold playNextNote.
  destruct (negb (isPlaying (app w))
            || (List.length (notes (app w)) <=? currentNoteIndex (app w))%nat)%bool
    eqn:E.
  - unfold cursor_in_range in *. simpl. rewrite pausePlayback_app. exact H.
  - destruct (nth_error (notes (app w)) (currentNoteIndex (app w))); [|exact H].
    apply orb_false_iff in E as [_ E]. apply Nat.leb_gt in E.
    unfold cursor_in_range. simpl. lia.
Qed.

Lemma togglePlayback_cursor w :
  cursor_in_range w -> cursor_in_range (togglePlayback w).
Proof.
  intros H. unfold togglePlayback, startPlayback.
  destruct (isPlaying (app w)).
  - unfold cursor_in_range in *. rewrite pausePlayback_app. exact H.
  - destruct (List.length (notes (app w)) =? 0)%nat; [exact H|].
    apply playNextNote_cursor. exact H.
Qed.

Lemma resetPlayback_cursor w : cursor_in_range (resetPlayback w).
Proof. unfold cursor_in_range, resetPlayback. simpl. lia. Qed.

Lemma handleKeyboard_cursor c w :
  cursor_in_range w -> cursor_in_range (world_of (handleKeyboard c w)).
Proof.
  intros H. unfold handleKeyboard.
  destruct (String.eqb c "Space"); [apply togglePlayback_cursor, H|].
  destruct (String.eqb c "ArrowRight").
  { destruct (negb (isPlaying (app w))
              && (currentNoteIndex (app w) <? List.length (notes (app w)))%nat)%bool
      eqn:E; [|exact H].
    apply andb_true_iff in E as [_ E]. apply Nat.ltb_lt in E.
    cbv zeta.
    match goal with |- context [displayCurrentNote ?n ?d] =>
      destruct (displayCurrentNote n d) end;
      unfold cursor_in_range; simpl; lia. }
  destruct (String.eqb c "ArrowLeft").
  { destruct (negb (isPlaying (app w)) && (0 <? currentNoteIndex (app w))%nat)%bool;
      [|exact H].
    cbv zeta.
    match goal with |- context [displayCurrentNote ?n ?d] =>
      destruct (displayCurrentNote n d) end;
      unfold cursor_in_range in *; simpl; lia. }
  destruct (String.eqb c "KeyR"); [|exact H].
  apply resetPlayback_cursor.
Qed.

(** Every event other than a load that brings a sequence shorter than
    the cursor keeps the cursor within the sequence. *)
Lemma step_keeps_cursor_in_range e w :
  (forall data, e = LoadSettles (Json data) ->
                currentNoteIndex (app w) <= List.length (r_notes data)) ->
  cursor_in_range w -> cursor_in_range (step e w).
Proof.
  intros Hload H. destruct e as [r| | |s|hs| |c|h]; simpl.
  - destruct r as [| | |data]; try exact H.
    specialize (Hload data eq_refl).
    unfold cursor_in_range. simpl.
    destruct (difficulty data); simpl; exact Hload.
  - apply togglePlayback_cursor, H.
  - apply resetPlayback_cursor.
  - exact H.
  - unfold setVisibleHands.
    destruct (String.eqb hs "right"); [|destruct (String.eqb hs "left")];
      exact H.
  - exact H.
  - apply handleKeyboard_cursor, H.
  - unfold fire.
    destruct (existsb (fun t => Pos.eqb (handle t) h) (timers w)); [|exact H].
    apply playNextNote_cursor. exact H.
Qed.

(** C6 fails on the code: [loadMIDI] keeps the cursor, so a load that
    settles with a shorter sequence leaves the cursor beyond the
    length.  Three notes are loaded and two played; a one-note sequence
    then arrives. *)
Theorem cursor_beyond_length_after_load :
  let w := run [LoadSettles (Json (Scenario.response
                                     [Scenario.c4; Scenario.d4; Scenario.e4]));
                ClickPlayPause;
                TimerDue 1;
                LoadSettles (Json (Scenario.response [Scenario.c4]))]
               Scenario.fresh in
  reachable blank_page w
  /\ currentNoteIndex (app w) = 2
  /\ List.length (notes (app w)) = 1
  /\ ~ cursor_in_range w.
Proof.
  intros w. split; [apply reachable_run; constructor|].
  assert (Hc : currentNoteIndex (app w) = 2) by (vm_compute; reflexivity).
  assert (Hl : List.length (notes (app w)) = 1) by (vm_compute; reflexivity).
  repeat apply conj; auto.
  unfold cursor_in_range. rewrite Hc, Hl. lia.
Qed.

(** In that state, once paused, stepping back reads [notes[1]] of a
    one-note sequence and raises. *)
Lemma step_back_raises_after_short_load :
  let w := run [LoadSettles (Json (Scenario.response
                                     [Scenario.c4; Scenario.d4; Scenario.e4]));
                ClickPlayPause;
                TimerDue 1;
                LoadSettles (Json (Scenario.response [Scenario.c4]));
                ClickPlayPause]
               Scenario.fresh in
  exists w', handleKeyboard "ArrowLeft" w = Throw w'
             /\ currentNoteIndex (app w') = 1
             /\ nth_error (notes (app w')) 1 = None.
Proof. vm_compute. eexists. repeat apply conj; reflexivity. Qed.

(** C7: stepping back is not a no-op on every paused state, and it can
    raise.  Three notes are loaded and two played, a one-note sequence
    arrives and playback is paused: the state is reachable and paused
    with the cursor at 2 of 1.  Stepping forward changes nothing there,
    but stepping back first moves the cursor to 1, still beyond the
    last note, then reads [notes[1]] of a one-note sequence and ends in
    a TypeError, the readout left as it was. *)
Theorem seekBack_raises_beyond_length :
  let w := run [LoadSettles (Json (Scenario.response
                                     [Scenario.c4; Scenario.d4; Scenario.e4]));
                ClickPlayPause;
                TimerDue 1;
                LoadSettles (Json (Scenario.response [Scenario.c4]));
                ClickPlayPause]
               Scenario.fresh in
  reachable blank_page w
  /\ isPlaying (app w) = false
  /\ currentNoteIndex (app w) = 2
  /\ List.length (notes (app w)) = 1
  /\ seekForward w = Normal w
  /\ exists w',
       seekBack w = Throw w'
       /\ currentNoteIndex (app w') = 1
       /\ notes (app w') = notes (app w)
       /\ nth_error (notes (app w')) (currentNoteIndex (app w')) = None
       /\ readout (document w') = readout (document w).
Proof.
  intros w. split; [apply reachable_run; constructor|].
  vm_compute. repeat apply conj; try reflexivity.
  eexists. repeat apply conj; reflexivity.
Qed.

(** The first engine never stores the handle of its timer, so [pause]
    cancels nothing: after play, pause, play two advances are armed, and
    played to the end the cursor passes the length. *)
Lemma mvp_pause_leaves_advance_armed :
  let w := PianoLearningAppMVP.pause
             (PianoLearningAppMVP.play Scenario.fresh_mvp) in
  PianoLearningAppMVP.isPlaying w = false
  /\ map fst (PianoLearningAppMVP.timers w) = [1%positive]
  /\ map fst (PianoLearningAppMVP.timers (PianoLearningAppMVP.play w))
     = [1%positive; 2%positive].
Proof. vm_compute. repeat apply conj; reflexivity. Qed.

Lemma mvp_cursor_passes_length :
  let w := fold_left (fun w h => PianoLearningAppMVP.fire h w)
             [1; 2; 3; 4; 5; 6; 7; 8; 9]%positive
             (PianoLearningAppMVP.play
                (PianoLearningAppMVP.pause
                   (PianoLearningAppMVP.play Scenario.fresh_mvp))) in
  PianoLearningAppMVP.currentNoteIndex w = 9
  /\ List.length (PianoLearningAppMVP.notes w) = 8.
Proof. vm_compute. split; reflexivity. Qed.
End Cursor.

(** ** Note names *)

Section NoteNames.
Import PianoLearningApp.
Local Open Scope string_scope.

Lemma digit_of_digit_char d :
  d < 10 -> digit_of (digit_char d) = Some (Z.of_nat d).
Proof.
  intros H. do 10 (destruct d as [|d]; [reflexivity|]). lia.
Qed.

Lemma digits_decimal ds a :
  Forall (fun d => d < 10) ds ->
  digits (decimal ds) (Some a)
  = Some (fold_left (fun a d => a * 10 + Z.of_nat d)%Z ds a).
Proof.
  intros H. revert a. induction H as [|d r Hd _ IH]; intros a.
  - reflexivity.
  - cbn [decimal digits fold_left]. rewrite (digit_of_digit_char Hd).
    apply IH.
Qed.

Lemma digits_decimal_start ds :
  ds <> [] -> Forall (fun d => d < 10) ds ->
  digits (decimal ds) None = Some (decimal_value ds).
Proof.
  intros Hne H. destruct H as [|d r Hd Hr]; [contradiction|].
  cbn [decimal digits]. rewrite (digit_of_digit_char Hd).
  rewrite (digits_decimal _ Hr). reflexivity.
Qed.

Lemma noteMap_names name k :
  noteMap name = Some k ->
  In (name, k)
     [("C", 0); ("C#", 1); ("D", 2); ("D#", 3); ("E", 4); ("F", 5);
      ("F#", 6); ("G", 7); ("G#", 8); ("A", 9); ("A#", 10);
      ("B", 11)]%float.
Proof.
  unfold noteMap.
  repeat match goal with
         | |- context [String.eqb name ?s] =>
             destruct (String.eqb_spec name s) as [->|_];
             [intros [= <-]; simpl; tauto|]
         end.
  discriminate.
Qed.

Lemma digit_char_cases d :
  d < 10 ->
  In (digit_char d) ["0"; "1"; "2"; "3"; "4"; "5"; "6"; "7"; "8"; "9"]%char.
Proof.
  intros H. do 10 (destruct d as [|d]; [simpl; tauto|]). lia.
Qed.

Lemma match_note_here_plain c s v :
  is_note_letter c = true ->
  (exists d r, d < 10 /\ s = String (digit_char d) r) ->
  digits s None = Some v ->
  match_note_here (String c s) = Some (String c "", v).
Proof.
  intros Hc (d & r & Hd & ->) Hv. unfold match_note_here. rewrite Hc.
  pose proof (digit_char_cases Hd) as Hin.
  set (x := digit_char d) in *. clearbody x.
  cbn [In] in Hin.
  repeat (destruct Hin as [<-|Hin]; [rewrite Hv; reflexivity|]).
  contradiction.
Qed.

Lemma match_note_here_sharp c s v :
  is_note_letter c = true ->
  digits s None = Some v ->
  match_note_here (String c (String "#" s)) = Some (String c "#", v).
Proof.
  intros Hc Hv. unfold match_note_here. rewrite Hc, Hv. reflexivity.
Qed.

Lemma match_note_at_head s m : match_note_here s = Some m -> match_note s = Some m.
Proof. intros H. destruct s; simpl in *; rewrite H; reflexivity. Qed.

Lemma noteToMidi_of_name name k ds :
  noteMap name = Some k ->
  ds <> [] -> Forall (fun d => d < 10) ds ->
  noteToMidi (name ++ decimal ds)
  = ((JS.of_Z (decimal_value ds) + 1) * 12 + k)%float.
Proof.
  intros Hk Hne Hds.
  pose proof (digits_decimal_start Hne Hds) as Hd.
  assert (Hhead : exists d r, d < 10 /\ decimal ds = String (digit_char d) r).
  { destruct Hds as [|d r Hlt Hr]; [contradiction|].
    exists d, (decimal r). auto. }
  set (v := decimal_value ds) in *. clearbody v.
  set (s := decimal ds) in *. clearbody s.
  apply noteMap_names in Hk. cbn [In] in Hk.
  unfold noteToMidi.
  repeat (destruct Hk as [Hk|Hk];
          [ injection Hk as <- <-; cbn [append];
            lazymatch goal with
            | |- context [match_note (String ?c (String "#" s))] =>
                rewrite (match_note_at_head _ (@match_note_here_sharp c s v eq_refl Hd))
            | |- context [match_note (String ?c s)] =>
                rewrite (match_note_at_head _ (@match_note_here_plain c s v eq_refl Hhead Hd))
            end;
            reflexivity
          | ]).
  contradiction.
Qed.

(** X1: A pitch name of [noteMap] followed by at most 20 decimal digits
    of an octave is read as the binary64 value of
    [(parseInt(digits) + 1) * 12 + pitch class], the sharp and the whole
    run of digits being captured; for an octave of one digit that value
    is exactly the integer [(octave + 1) * 12 + pitch class]. *)
Theorem noteToMidi_reads_name_and_octave name k ds :
  noteMap name = Some k ->
  ds <> [] -> Forall (fun d => d < 10) ds -> List.length ds <= 20 ->
  noteToMidi (name ++ decimal ds)
  = ((JS.of_Z (decimal_value ds) + 1) * 12 + k)%float
  /\ (List.length ds = 1 ->
      noteToMidi (name ++ decimal ds)
      = JS.of_Z ((decimal_value ds + 1) * 12 + JS.to_int k)).
Proof.
  intros Hk Hne Hds _.
  pose proof (noteToMidi_of_name name Hk Hne Hds) as H.
  split; [exact H|].
  intros Hlen. rewrite H.
  destruct ds as [|d [|d' r]]; try discriminate Hlen.
  inversion Hds as [|? ? Hd _]; subst.
  apply noteMap_names in Hk. cbn [In] in Hk.
  repeat (destruct Hk as [Hk|Hk];
          [ injection Hk as <- <-;
            do 10 (destruct d as [|d]; [vm_compute; reflexivity|]); lia
          | ]).
  contradiction.
Qed.

Lemma noteToMidi_reads_name_and_octave_Cs4 :
  noteMap "C#" = Some 1%float
  /\ [4] <> []
  /\ Forall (fun d => d < 10) [4]
  /\ List.length [4] <= 20
  /\ noteToMidi "C#4" = 61%float
  /\ JS.to_int (noteToMidi "C#4") = 61%Z.
Proof.
  assert (H1 : noteMap "C#" = Some 1%float) by reflexivity.
  assert (H2 : [4] <> []) by discriminate.
  assert (H3 : Forall (fun d => d < 10) [4]) by (repeat constructor).
  assert (H4 : List.length [4] <= 20) by (simpl; lia).
  destruct (noteToMidi_reads_name_and_octave "C#" H1 H2 H3 H4) as [_ H].
  specialize (H eq_refl).
  repeat apply conj; [exact H1 | exact H2 | exact H3 | exact H4 | exact H |].
  change ("C#4") with ("C#" ++ decimal [4]). rewrite H. reflexivity.
Defined.

(** Beyond 2^53 the sum is rounded, and a sharp that [noteMap] does not
    hold gives NaN. *)
Lemma noteToMidi_rounds :
  JS.to_int (noteToMidi "B750599937895082") = 9007199254741008%Z
  /\ ((750599937895082 + 1) * 12 + 11 = 9007199254741007)%Z.
Proof. split; vm_compute; reflexivity. Qed.

Lemma noteToMidi_unknown_sharp :
  PrimFloat.is_nan (noteToMidi "E#4") = true
  /\ PrimFloat.is_nan (noteToMidi "B#3") = true.
Proof. split; vm_compute; reflexivity. Qed.
End NoteNames.

Section NoteNameDefault.
Import PianoLearningApp.
Local Open Scope string_scope.

Lemma match_note_without_letter s :
  (forall c, In c (list_ascii_of_string s) -> is_note_letter c = false) ->
  match_note s = None.
Proof.
  induction s as [|c s IH]; intros H; simpl.
  - reflexivity.
  - rewrite (H c (or_introl eq_refl)). apply IH.
    intros c' Hc'. apply H. right. exact Hc'.
Qed.

Lemma match_note_without_digit s :
  (forall c, In c (list_ascii_of_string s) -> digit_of c = None) ->
  match_note s = None.
Proof.
  induction s as [|c s IH]; intros H; simpl.
  - reflexivity.
  - assert (Hs : match_note s = None).
    { apply IH. intros c' Hc'. apply H. right. exact Hc'. }
    rewrite Hs.
    destruct (is_note_letter c); [|reflexivity].
    destruct s as [|c1 s1]; [reflexivity|].
    assert (H1 : digit_of c1 = None) by (apply H; simpl; auto).
    assert (Hd1 : digits (String c1 s1) None = None) by (simpl; now rewrite H1).
    assert (Hd2 : digits s1 None = None).
    { destruct s1 as [|c2 s2]; [reflexivity|].
      assert (H2 : digit_of c2 = None) by (apply H; simpl; auto).
      simpl. now rewrite H2. }
    destruct c1 as [[] [] [] [] [] [] [] []];
      first [ discriminate H1
            | rewrite Hd1; reflexivity
            | rewrite Hd2; reflexivity ].
Qed.

(** X2: A name in which the pattern finds nothing, because it has no letter
    from A to G or no digit, is read as middle C, 60. *)
Theorem noteToMidi_defaults_to_middle_C s :
  (forall c, In c (list_ascii_of_string s) -> is_note_letter c = false)
  \/ (forall c, In c (list_ascii_of_string s) -> digit_of c = None) ->
  noteToMidi s = 60%float.
Proof.
  intros [H|H]; unfold noteToMidi.
  - rewrite (match_note_without_letter s H). reflexivity.
  - rewrite (match_note_without_digit s H). reflexivity.
Qed.

Lemma noteToMidi_defaults_to_middle_C_flat :
  (forall c, In c (list_ascii_of_string "Bb") -> digit_of c = None)
  /\ noteToMidi "Bb" = 60%float.
Proof.
  assert (H : forall c, In c (list_ascii_of_string "Bb") -> digit_of c = None).
  { intros c [<-|[<-|[]]]; reflexivity. }
  split; [exact H|].
  apply noteToMidi_defaults_to_middle_C. right. exact H.
Defined.
End NoteNameDefault.

(** ** What a highlight marks *)

Section SetAfterClear.
Variable A : Type.
Variables (p q : A -> bool) (c g : A -> A).

Hypothesis p_c : forall x, p (c x) = p x.
Hypothesis q_c : forall x, q (c x) = false.
Hypothesis q_g : forall x, q (g x) = true.

Lemma update_first_no_match l :
  existsb p l = false -> update_first p g l = l.
Proof.
  induction l as [|x l IH]; simpl; [reflexivity|].
  intros H. apply orb_false_iff in H as [Hx Hl].
  rewrite Hx, (IH Hl). reflexivity.
Qed.

Lemma count_set_after_clear_exact l :
  count q (update_first p g (map c l)) = if existsb p l then 1 else 0.
Proof.
  induction l as [|x l IH]; simpl; [reflexivity|].
  rewrite p_c. destruct (p x); simpl.
  - unfold count. simpl. rewrite q_g. simpl. f_equal.
    apply (count_cleared q c q_c).
  - unfold count in *. simpl. rewrite q_c. exact IH.
Qed.

Lemma marked_after_clear l x :
  In x (update_first p g (map c l)) -> q x = true ->
  exists y, In y l /\ p y = true /\ x = g (c y).
Proof.
  induction l as [|y l IH]; simpl; [intros []|].
  rewrite p_c. destruct (p y) eqn:E; simpl.
  - intros [<-|Hin] Hq.
    + exists y. auto.
    + apply in_map_iff in Hin as (z & <- & _). rewrite q_c in Hq. discriminate.
  - intros [<-|Hin] Hq.
    + rewrite q_c in Hq. discriminate.
    + destruct (IH Hin Hq) as (z & Hz & Hp & ->). exists z. auto.
Qed.
End SetAfterClear.

Section Marks.
Import PianoLearningApp.
Local Open Scope string_scope.

Lemma cleared_finger_marks l f :
  In f (map clear_finger l) -> finger_active f = false.
Proof.
  intros H. apply in_map_iff in H as (g & <- & _).
  apply clear_finger_inactive.
Qed.

(** X3: after a render every active key carries the MIDI number of the note
    and shows its finger, an indicator is shown only on an active key,
    and every active finger shape has the note's finger number and sits
    in the diagram of the note's hand. *)
Theorem render_marks_only_the_note (note : Note) (d : Document) :
  (forall k, In k (piano_keys (render note d)) ->
     key_active k = true \/ indicator_show k = true ->
     data_midi k = midi note
     /\ key_active k = true
     /\ indicator_show k = true
     /\ indicator_text k = Some (finger note))
  /\ (forall f, In f (right_hand_svg (render note d)) ->
        finger_active f = true ->
        hand note = "right" /\ data_finger f = finger note
        /\ finger_base f = false)
  /\ (forall f, In f (left_hand_svg (render note d)) ->
        finger_active f = true ->
        hand note <> "right" /\ data_finger f = finger note
        /\ finger_base f = false).
Proof.
  repeat apply conj.
  - intros k Hin Hk. rewrite render_keys in Hin.
    assert (Hex : exists y, In y (piano_keys d)
                            /\ Z.eqb (data_midi y) (midi note) = true
                            /\ k = activate_key (finger note) (clear_key y)).
    { destruct Hk as [Hk|Hk].
      - apply (@marked_after_clear _ _ key_active clear_key
                 (activate_key (finger note))) with (l := piano_keys d);
          auto.
      - apply (@marked_after_clear _ _ indicator_show clear_key
                 (activate_key (finger note))) with (l := piano_keys d);
          auto. }
    destruct Hex as (y & _ & Hy & ->). apply Z.eqb_eq in Hy. simpl. auto.
  - intros f Hin Hf. unfold render, highlightFinger in Hin.
    destruct (String.eqb_spec (hand note) "right") as [E|E]; simpl in Hin.
    + apply (@marked_after_clear _
               (fun f => Z.eqb (data_finger f) (finger note))
               finger_active clear_finger activate_finger) in Hin; auto.
      * destruct Hin as (y & _ & Hy & ->). apply Z.eqb_eq in Hy.
        simpl. rewrite clear_finger_data. auto.
      * intros x. rewrite clear_finger_data. reflexivity.
      * apply clear_finger_inactive.
    + apply cleared_finger_marks in Hin. congruence.
  - intros f Hin Hf. unfold render, highlightFinger in Hin.
    destruct (String.eqb_spec (hand note) "right") as [E|E]; simpl in Hin.
    + apply cleared_finger_marks in Hin. congruence.
    + apply (@marked_after_clear _
               (fun f => Z.eqb (data_finger f) (finger note))
               finger_active clear_finger activate_finger) in Hin; auto.
      * destruct Hin as (y & _ & Hy & ->). apply Z.eqb_eq in Hy.
        simpl. rewrite clear_finger_data. auto.
      * intros x. rewrite clear_finger_data. reflexivity.
      * apply clear_finger_inactive.
Qed.

Lemma keyboard_midi_numbers :
  map data_midi (white_keys ++ black_keys)
  = [48; 50; 52; 53; 55; 57; 59; 60; 62; 64; 65; 67; 69; 71; 72; 74; 76; 77;
     79; 81; 83; 49; 51; 54; 56; 58; 61; 63; 66; 68; 70; 73; 75; 78; 80;
     82]%Z.
Proof. vm_compute. reflexivity. Qed.

Lemma existsb_map (A B : Type) (f : A -> B) (p : B -> bool) l :
  existsb p (map f l) = existsb (fun x => p (f x)) l.
Proof. induction l as [|x l IH]; simpl; [reflexivity|]. now rewrite IH. Qed.

Lemma keyboard_has_key m :
  existsb (fun k => Z.eqb (data_midi k) m) (white_keys ++ black_keys)
  = ((48 <=? m) && (m <=? 83))%Z%bool.
Proof.
  rewrite <- (existsb_map data_midi (fun x => Z.eqb x m)).
  rewrite keyboard_midi_numbers. cbn [existsb].
  repeat match goal with
         | |- context [Z.eqb ?a m] =>
             destruct (Z.eqb_spec a m) as [<-|?]; [reflexivity|]
         end.
  cbn [orb]. symmetry. apply andb_false_iff.
  rewrite Z.leb_gt, Z.leb_gt. lia.
Qed.

(** X4: on the keyboard [createPianoKeys] builds, a note from C3 (48) to B5
    (83) lights exactly one key and any other note lights none;
    whatever was lit before is cleared. *)
Theorem keyboard_lights_one_key_in_range (note : Note) (d : Document) :
  count key_active (piano_keys (highlightKey note (createPianoKeys d)))
  = if ((48 <=? midi note) && (midi note <=? 83))%Z%bool then 1 else 0.
Proof.
  unfold highlightKey, clearKeyHighlights, createPianoKeys.
  cbn [piano_keys set_piano_keys].
  rewrite (@count_set_after_clear_exact _ _ key_active clear_key
             (activate_key (finger note))); auto.
  rewrite keyboard_has_key. reflexivity.
Qed.

Lemma hand_has_finger n l :
  existsb (fun f => Z.eqb (data_finger f) n) (l ++ new_fingers)
  = (existsb (fun f => Z.eqb (data_finger f) n) l
     || ((1 <=? n) && (n <=? 5))%Z)%bool.
Proof.
  rewrite existsb_app. f_equal. unfold new_fingers.
  cbn [map existsb data_finger].
  repeat match goal with
         | |- context [Z.eqb ?a n] =>
             destruct (Z.eqb_spec a n) as [<-|?]; [reflexivity|]
         end.
  cbn [orb]. symmetry. apply andb_false_iff.
  rewrite Z.leb_gt, Z.leb_gt. lia.
Qed.

(** X5: on hand diagrams that were empty before [createHandVisualization]
    filled them, a note with a finger from 1 to 5 lights exactly one
    finger shape, in the diagram of its hand, and any other finger
    number lights none. *)
Theorem hands_light_one_finger_in_range (note : Note) (d : Document) :
  right_hand_svg d = [] -> left_hand_svg d = [] ->
  let d' := highlightFinger note (createHandVisualization d) in
  let lit := if ((1 <=? finger note) && (finger note <=? 5))%Z%bool
             then 1 else 0 in
  count finger_active (right_hand_svg d')
  = (if String.eqb (hand note) "right" then lit else 0)
  /\ count finger_active (left_hand_svg d')
     = (if String.eqb (hand note) "right" then 0 else lit).
Proof.
  intros Hr Hl. unfold highlightFinger, clearFingerHighlights,
    createHandVisualization, createHandSVG.
  cbn [right_hand_svg left_hand_svg set_hands]. rewrite Hr, Hl.
  destruct (String.eqb (hand note) "right");
    cbn [right_hand_svg left_hand_svg set_hands]; split;
    try apply (count_cleared finger_active clear_finger clear_finger_inactive);
    rewrite (@count_set_after_clear_exact _
               (fun f => Z.eqb (data_finger f) (finger note))
               finger_active clear_finger activate_finger);
    auto using clear_finger_inactive;
    try (intros x; rewrite clear_finger_data; reflexivity);
    rewrite (hand_has_finger (finger note) []); reflexivity.
Qed.

Lemma hands_light_one_finger_in_range_blank :
  right_hand_svg blank_page = [] /\ left_hand_svg blank_page = []
  /\ count finger_active
       (right_hand_svg
          (highlightFinger Scenario.c4 (createHandVisualization blank_page)))
     = 1.
Proof.
  destruct (@hands_light_one_finger_in_range Scenario.c4 blank_page
              eq_refl eq_refl) as [H _].
  split; [reflexivity|]. split; [reflexivity|]. exact H.
Defined.
End Marks.

(** ** Pause and reset *)

Section PauseReset.
Import PianoLearningApp.
Local Open Scope string_scope.

Lemma filter_idem (A : Type) (f : A -> bool) (l : list A) :
  filter f (filter f l) = filter f l.
Proof.
  induction l as [|x l IH]; simpl; [reflexivity|].
  destruct (f x) eqn:E; simpl; [rewrite E, IH|]; auto.
Qed.

Lemma World_ext (w w' : World) :
  app w = app w' -> document w = document w' -> timers w = timers w' ->
  next_handle w = next_handle w' -> notifications w = notifications w' ->
  w = w'.
Proof. destruct w, w'; simpl; intros; subst; reflexivity. Qed.

Lemma pausePlayback_document w :
  document (pausePlayback w) = set_play_pause_label "Play" (document w).
Proof.
  unfold pausePlayback; simpl. destruct (playbackTimer (app w)); reflexivity.
Qed.

Lemma pausePlayback_timers w :
  timers (pausePlayback w)
  = match playbackTimer (app w) with
    | Some h => filter (fun t => negb (Pos.eqb (handle t) h)) (timers w)
    | None => timers w
    end.
Proof.
  unfold pausePlayback; simpl. destruct (playbackTimer (app w)); reflexivity.
Qed.

Lemma pausePlayback_notifications w :
  notifications (pausePlayback w) = notifications w.
Proof.
  unfold pausePlayback; simpl. destruct (playbackTimer (app w)); reflexivity.
Qed.

(** X6: pausing a paused engine changes nothing: [pausePlayback] twice is
    [pausePlayback] once, on any state. *)
Theorem pausePlayback_idempotent (w : World) :
  pausePlayback (pausePlayback w) = pausePlayback w.
Proof.
  apply World_ext.
  - rewrite !pausePlayback_app. reflexivity.
  - rewrite !pausePlayback_document. reflexivity.
  - rewrite (pausePlayback_timers (pausePlayback w)), pausePlayback_app.
    cbn [playbackTimer set_isPlaying]. rewrite pausePlayback_timers.
    destruct (playbackTimer (app w)); [apply filter_idem | reflexivity].
  - rewrite !pausePlayback_next_handle. reflexivity.
  - rewrite !pausePlayback_notifications. reflexivity.
Qed.

Lemma clearAllHighlights_counts d :
  count key_active (piano_keys (clearAllHighlights d)) = 0
  /\ count indicator_show (piano_keys (clearAllHighlights d)) = 0
  /\ count finger_active (right_hand_svg (clearAllHighlights d)) = 0
  /\ count finger_active (left_hand_svg (clearAllHighlights d)) = 0.
Proof.
  unfold clearAllHighlights, clearFingerHighlights, clearKeyHighlights.
  simpl. repeat apply conj.
  - apply count_cleared. reflexivity.
  - apply count_cleared. reflexivity.
  - apply count_cleared, clear_finger_inactive.
  - apply count_cleared, clear_finger_inactive.
Qed.

Lemma resetPlayback_app w :
  app (resetPlayback w)
  = set_currentNoteIndex 0 (set_isPlaying false (app w)).
Proof. unfold resetPlayback. simpl. rewrite pausePlayback_app. reflexivity. Qed.

Lemma resetPlayback_document w :
  document (resetPlayback w)
  = set_readout {| current_note := "None"; finger_info := None;
                   hand_position := "None"; current_time := 0%float |}
      (set_progress
         (if (0 <? List.length (notes (app w)))%nat
          then (JS.of_nat 0 / JS.of_nat (List.length (notes (app w))) * 100)%float
          else 0%float) 0
         (clearAllHighlights (set_play_pause_label "Play" (document w)))).
Proof.
  unfold resetPlayback, updateProgress.
  cbn [app document with_app with_document currentNoteIndex
       set_currentNoteIndex notes].
  rewrite pausePlayback_app, pausePlayback_document. reflexivity.
Qed.

Lemma resetPlayback_timers w :
  timers (resetPlayback w) = timers (pausePlayback w).
Proof. reflexivity. Qed.

Lemma resetPlayback_next_handle w :
  next_handle (resetPlayback w) = next_handle (pausePlayback w).
Proof. reflexivity. Qed.

Lemma resetPlayback_notifications w :
  notifications (resetPlayback w) = notifications (pausePlayback w).
Proof. reflexivity. Qed.

(** X7: [resetPlayback] on any state: the cursor is 0, nothing plays, no
    key, indicator or finger is lit, the counter shows 0, the readout is
    blank, the sequence is kept, and a second reset changes nothing. *)
Theorem resetPlayback_returns_to_start (w : World) :
  currentNoteIndex (app (resetPlayback w)) = 0
  /\ isPlaying (app (resetPlayback w)) = false
  /\ notes (app (resetPlayback w)) = notes (app w)
  /\ count key_active (piano_keys (document (resetPlayback w))) = 0
  /\ count indicator_show (piano_keys (document (resetPlayback w))) = 0
  /\ count finger_active (right_hand_svg (document (resetPlayback w))) = 0
  /\ count finger_active (left_hand_svg (document (resetPlayback w))) = 0
  /\ notes_played (document (resetPlayback w)) = 0
  /\ current_note (readout (document (resetPlayback w))) = "None"
  /\ resetPlayback (resetPlayback w) = resetPlayback w.
Proof.
  destruct (clearAllHighlights_counts
              (set_play_pause_label "Play" (document w)))
    as (K1 & K2 & K3 & K4).
  split; [rewrite resetPlayback_app; reflexivity|].
  split; [rewrite resetPlayback_app; reflexivity|].
  split; [rewrite resetPlayback_app; reflexivity|].
  split; [rewrite resetPlayback_document; exact K1|].
  split; [rewrite resetPlayback_document; exact K2|].
  split; [rewrite resetPlayback_document; exact K3|].
  split; [rewrite resetPlayback_document; exact K4|].
  split; [rewrite resetPlayback_document; reflexivity|].
  split; [rewrite resetPlayback_document; reflexivity|].
  apply World_ext.
  - rewrite !resetPlayback_app. reflexivity.
  - rewrite (resetPlayback_document (resetPlayback w)).
    rewrite resetPlayback_app, resetPlayback_document.
    cbn [notes set_currentNoteIndex set_isPlaying].
    set (p := if (0 <? List.length (notes (app w)))%nat then _ else _).
    clearbody p. clear K1 K2 K3 K4.
    destruct (document w) as [ks rh lh ro pf np lab dis tot dif tem ld rd].
    cbv beta iota delta
      [clearAllHighlights clearFingerHighlights clearKeyHighlights
       set_readout set_progress set_hands set_piano_keys
       set_play_pause_label
       piano_keys right_hand_svg left_hand_svg readout progress_fill
       notes_played play_pause_label play_pause_disabled total_notes_text
       difficulty_badge tempo_display left_hand_display right_hand_display].
    rewrite !(@map_clear_idem _ clear_finger clear_finger_idem).
    rewrite (@map_clear_idem _ clear_key clear_key_idem). reflexivity.
  - rewrite !resetPlayback_timers, pausePlayback_timers.
    rewrite resetPlayback_app, resetPlayback_timers.
    cbn [playbackTimer set_currentNoteIndex set_isPlaying].
    rewrite pausePlayback_timers.
    destruct (playbackTimer (app w)); [apply filter_idem | reflexivity].
  - rewrite !resetPlayback_next_handle, pausePlayback_next_handle.
    apply resetPlayback_next_handle.
  - rewrite !resetPlayback_notifications, pausePlayback_notifications.
    apply resetPlayback_notifications.
Qed.
End PauseReset.

(** ** Playback from start to end *)

Section RunThrough.
Import PianoLearningApp.
Local Open Scope string_scope.

Lemma highlightFinger_readout note d :
  readout (highlightFinger note d) = readout d
  /\ notes_played (highlightFinger note d) = notes_played d.
Proof.
  unfold highlightFinger. destruct (String.eqb (hand note) "right"); auto.
Qed.

Lemma render_readout note d : readout (render note d) = readout_of note.
Proof.
  unfold render. destruct (highlightFinger_readout note
    (highlightKey note (set_readout (readout_of note) d))) as [-> _].
  reflexivity.
Qed.

Lemma playNextNote_completes w :
  (negb (isPlaying (app w))
   || (List.length (notes (app w)) <=? currentNoteIndex (app w))%nat)%bool
  = true ->
  playNextNote w
  = showNotification "Playback completed!" "success" (pausePlayback w).
Proof. intros H. unfold playNextNote. rewrite H. reflexivity. Qed.

(** What [playNextNote] does when it emits the note at the cursor. *)
Lemma playNextNote_emits w n :
  isPlaying (app w) = true ->
  nth_error (notes (app w)) (currentNoteIndex (app w)) = Some n ->
  isPlaying (app (playNextNote w)) = true
  /\ notes (app (playNextNote w)) = notes (app w)
  /\ currentNoteIndex (app (playNextNote w)) = currentNoteIndex (app w) + 1
  /\ (exists ms,
        timers (playNextNote w)
        = (timers w ++ [{| handle := next_handle w; delay := ms |}])%list)
  /\ playbackTimer (app (playNextNote w)) = Some (next_handle w)
  /\ readout (document (playNextNote w)) = readout_of n
  /\ notes_played (document (playNextNote w)) = currentNoteIndex (app w)
  /\ notifications (playNextNote w) = notifications w.
Proof.
  intros Hp Hn.
  assert (Hlt : (List.length (notes (app w)) <=? currentNoteIndex (app w))%nat
                = false).
  { apply Nat.leb_gt. apply nth_error_Some. congruence. }
  unfold playNextNote. rewrite Hp, Hlt, Hn. cbn [negb orb].
  cbn [setTimeout with_app with_document updateProgress app document timers
       notifications set_playbackTimer set_currentNoteIndex isPlaying notes
       currentNoteIndex playbackTimer set_progress readout notes_played].
  repeat apply conj; try reflexivity; try assumption.
  - eexists. reflexivity.
  - apply render_readout.
Qed.

Lemma playNextNote_armed_if_playing w :
  isPlaying (app (playNextNote w)) = true -> timers (playNextNote w) <> [].
Proof.
  destruct (negb (isPlaying (app w))
            || (List.length (notes (app w)) <=? currentNoteIndex (app w))%nat)%bool
    eqn:E.
  - rewrite (playNextNote_completes w E). simpl.
    rewrite pausePlayback_app. discriminate.
  - apply orb_false_iff in E as [Ep El].
    apply negb_false_iff in Ep. apply Nat.leb_gt in El.
    destruct (nth_error (notes (app w)) (currentNoteIndex (app w)))
      as [n|] eqn:En.
    + destruct (playNextNote_emits w Ep En) as (_ & _ & _ & (ms & ->) & _).
      intros _ H. apply app_eq_nil in H as [_ H]. discriminate.
    + apply nth_error_None in En. lia.
Qed.

Lemma step_armed_if_playing e w :
  timers_inv w ->
  (isPlaying (app w) = true -> timers w <> []) ->
  isPlaying (app (step e w)) = true -> timers (step e w) <> [].
Proof.
  intros Hinv Hw.
  assert (Htoggle : isPlaying (app (togglePlayback w)) = true ->
                    timers (togglePlayback w) <> []).
  { unfold togglePlayback, startPlayback.
    destruct (isPlaying (app w)) eqn:Ep.
    - rewrite pausePlayback_app. discriminate.
    - destruct (List.length (notes (app w)) =? 0)%nat.
      + simpl. congruence.
      + apply playNextNote_armed_if_playing. }
  assert (Hreset : isPlaying (app (resetPlayback w)) = true ->
                   timers (resetPlayback w) <> []).
  { rewrite resetPlayback_app. discriminate. }
  destruct e as [r| | |s|hs| |c|h]; cbn [step].
  - destruct (loadMIDI_timers r w) as (-> & -> & _). exact Hw.
  - exact Htoggle.
  - exact Hreset.
  - exact Hw.
  - unfold setVisibleHands.
    destruct (String.eqb hs "right"); [|destruct (String.eqb hs "left")];
      exact Hw.
  - exact Hw.
  - unfold handleKeyboard.
    destruct (String.eqb c "Space"); [exact Htoggle|].
    destruct (String.eqb c "ArrowRight").
    { destruct (negb (isPlaying (app w))
                && (currentNoteIndex (app w) <? List.length (notes (app w)))%nat)%bool;
        [|exact Hw].
      cbv zeta.
      match goal with |- context [displayCurrentNote ?n ?d] =>
        destruct (displayCurrentNote n d) end; exact Hw. }
    destruct (String.eqb c "ArrowLeft").
    { destruct (negb (isPlaying (app w)) && (0 <? currentNoteIndex (app w))%nat)%bool;
        [|exact Hw].
      cbv zeta.
      match goal with |- context [displayCurrentNote ?n ?d] =>
        destruct (displayCurrentNote n d) end; exact Hw. }
    destruct (String.eqb c "KeyR"); [exact Hreset | exact Hw].
  - unfold fire.
    destruct (existsb (fun t => Pos.eqb (handle t) h) (timers w));
      [apply playNextNote_armed_if_playing | exact Hw].
Qed.

(** X8: in every reachable state the engine is playing exactly when one
    advance is armed: playback is never left without a timer to move it
    on, and a paused engine has none. *)
Theorem playing_iff_one_advance_armed (page : Document) (w : World) :
  reachable page w ->
  (isPlaying (app w) = true <-> List.length (timers w) = 1)
  /\ (isPlaying (app w) = false <-> timers w = []).
Proof.
  intros Hr.
  assert (H : timers_inv w /\ (isPlaying (app w) = true -> timers w <> [])).
  { induction Hr as [|e w Hr [IH1 IH2]].
    - split; [apply timers_inv_nil; reflexivity | discriminate].
    - split; [apply step_inv, IH1 | apply step_armed_if_playing; assumption]. }
  destruct H as ((_ & Hlen & Hidle) & Hplay).
  split; split.
  - intros Hp. specialize (Hplay Hp).
    destruct (timers w) as [|t [|t' l]]; simpl in *; try lia. congruence.
  - intros Hl. destruct (isPlaying (app w)); [reflexivity|].
    rewrite Hidle in Hl by reflexivity. discriminate.
  - exact Hidle.
  - intros Hnil. destruct (isPlaying (app w)); [|reflexivity].
    exfalso. apply Hplay; auto.
Qed.

Lemma playing_iff_one_advance_armed_playing :
  reachable blank_page Scenario.playing
  /\ List.length (timers Scenario.playing) = 1.
Proof.
  split; [exact reachable_playing|].
  destruct (playing_iff_one_advance_armed reachable_playing) as [[H _] _].
  apply H. reflexivity.
Defined.

Lemma tick_emits w t n :
  isPlaying (app w) = true -> timers w = [t] ->
  nth_error (notes (app w)) (currentNoteIndex (app w)) = Some n ->
  isPlaying (app (tick w)) = true
  /\ notes (app (tick w)) = notes (app w)
  /\ currentNoteIndex (app (tick w)) = currentNoteIndex (app w) + 1
  /\ (exists t', timers (tick w) = [t'])
  /\ readout (document (tick w)) = readout_of n
  /\ notes_played (document (tick w)) = currentNoteIndex (app w)
  /\ notifications (tick w) = notifications w.
Proof.
  intros Hp Ht Hn. unfold tick, fire. rewrite Ht.
  cbn [existsb]. rewrite Pos.eqb_refl. cbn [orb].
  set (w1 := clearTimeout (handle t) w).
  assert (Ht1 : timers w1 = []).
  { subst w1. unfold clearTimeout, with_timers. cbn [timers]. rewrite Ht.
    cbn [filter]. rewrite Pos.eqb_refl. reflexivity. }
  destruct (@playNextNote_emits w1 n Hp Hn)
    as (H1 & H2 & H3 & (ms & H4) & _ & H6 & H7 & H8).
  rewrite Ht1 in H4.
  repeat apply conj; try assumption. eexists. exact H4.
Qed.

Lemma tick_completes w t :
  isPlaying (app w) = true -> timers w = [t] ->
  List.length (notes (app w)) <= currentNoteIndex (app w) ->
  isPlaying (app (tick w)) = false
  /\ notes (app (tick w)) = notes (app w)
  /\ currentNoteIndex (app (tick w)) = currentNoteIndex (app w)
  /\ timers (tick w) = []
  /\ notes_played (document (tick w)) = notes_played (document w)
  /\ notifications (tick w)
     = (notifications w
          ++ [{| message := "Playback completed!"; kind := "success" |}])%list.
Proof.
  intros Hp Ht Hle. unfold tick, fire. rewrite Ht.
  cbn [existsb]. rewrite Pos.eqb_refl. cbn [orb].
  set (w1 := clearTimeout (handle t) w).
  assert (Ht1 : timers w1 = []).
  { subst w1. unfold clearTimeout, with_timers. cbn [timers]. rewrite Ht.
    cbn [filter]. rewrite Pos.eqb_refl. reflexivity. }
  rewrite playNextNote_completes.
  2:{ apply orb_true_iff. right. apply Nat.leb_le. exact Hle. }
  cbn [showNotification app document timers notifications].
  rewrite pausePlayback_app, pausePlayback_timers, pausePlayback_document,
    pausePlayback_notifications, Ht1.
  repeat apply conj; try reflexivity.
  destruct (playbackTimer (app w1)); reflexivity.
Qed.

Lemma ticks_play k :
  forall w t,
    isPlaying (app w) = true -> timers w = [t] ->
    currentNoteIndex (app w) + k <= List.length (notes (app w)) ->
    isPlaying (app (Nat.iter k tick w)) = true
    /\ notes (app (Nat.iter k tick w)) = notes (app w)
    /\ currentNoteIndex (app (Nat.iter k tick w)) = currentNoteIndex (app w) + k
    /\ (exists t', timers (Nat.iter k tick w) = [t'])
    /\ notifications (Nat.iter k tick w) = notifications w
    /\ (0 < k ->
        notes_played (document (Nat.iter k tick w))
        = currentNoteIndex (app w) + k - 1
        /\ exists n,
            nth_error (notes (app w)) (currentNoteIndex (app w) + k - 1)
            = Some n
            /\ readout (document (Nat.iter k tick w)) = readout_of n).
Proof.
  induction k as [|k IH]; intros w t Hp Ht Hle.
  - change (Nat.iter 0 tick w) with w. rewrite Nat.add_0_r.
    repeat apply conj; try reflexivity; try assumption; [eauto | lia].
  - change (Nat.iter (S k) tick w) with (tick (Nat.iter k tick w)).
    destruct (IH w t Hp Ht ltac:(lia)) as (I1 & I2 & I3 & (t' & I4) & I5 & _).
    set (wk := Nat.iter k tick w) in *.
    destruct (nth_error (notes (app wk)) (currentNoteIndex (app wk)))
      as [n|] eqn:En.
    2:{ apply nth_error_None in En. rewrite I2, I3 in En. lia. }
    destruct (tick_emits wk I1 I4 En) as (T1 & T2 & T3 & T4 & T5 & T6 & T7).
    repeat apply conj.
    + exact T1.
    + rewrite T2. exact I2.
    + rewrite T3, I3. lia.
    + exact T4.
    + rewrite T7. exact I5.
    + intros _. split; [rewrite T6, I3; lia|].
      exists n. split; [|exact T5].
      rewrite I2, I3 in En.
      replace (currentNoteIndex (app w) + S k - 1)
        with (currentNoteIndex (app w) + k) by lia.
      exact En.
Qed.

(** X9: pressing play on a paused engine with notes ahead of the cursor and
    letting the armed advances come due plays through to the end: while
    notes remain the engine is playing and shows the note before the
    cursor, and the advance after the last note stops playback with
    the cursor at the length, no timer armed, the completion notice
    shown, and the counter still at [length - 1]. *)
Theorem playback_runs_to_the_end (w : World) :
  isPlaying (app w) = false -> timers w = [] ->
  currentNoteIndex (app w) < List.length (notes (app w)) ->
  let remaining := List.length (notes (app w)) - currentNoteIndex (app w) in
  (forall k, k < remaining ->
     let wk := Nat.iter k tick (togglePlayback w) in
     isPlaying (app wk) = true
     /\ currentNoteIndex (app wk) = currentNoteIndex (app w) + k + 1
     /\ exists n,
         nth_error (notes (app w)) (currentNoteIndex (app w) + k) = Some n
         /\ readout (document wk) = readout_of n)
  /\ (let wn := Nat.iter remaining tick (togglePlayback w) in
      isPlaying (app wn) = false
      /\ currentNoteIndex (app wn) = List.length (notes (app w))
      /\ notes (app wn) = notes (app w)
      /\ timers wn = []
      /\ notes_played (document wn) = List.length (notes (app w)) - 1
      /\ notifications wn
         = (notifications w
              ++ [{| message := "Playback completed!";
                     kind := "success" |}])%list).
Proof.
  intros Hp Ht Hlt remaining.
  (* the first note is emitted by the play press itself *)
  set (w0 := togglePlayback w).
  assert (Hstart :
            isPlaying (app w0) = true
            /\ notes (app w0) = notes (app w)
            /\ currentNoteIndex (app w0) = currentNoteIndex (app w) + 1
            /\ (exists t, timers w0 = [t])
            /\ notifications w0 = notifications w
            /\ notes_played (document w0) = currentNoteIndex (app w)
            /\ exists n,
                nth_error (notes (app w)) (currentNoteIndex (app w)) = Some n
                /\ readout (document w0) = readout_of n).
  { subst w0. unfold togglePlayback, startPlayback. rewrite Hp.
    destruct (List.length (notes (app w)) =? 0)%nat eqn:E;
      [apply Nat.eqb_eq in E; lia|].
    set (w1 := with_document (set_play_pause_label "Pause")
                 (with_app (set_isPlaying true) w)).
    destruct (nth_error (notes (app w)) (currentNoteIndex (app w)))
      as [n|] eqn:En; [|apply nth_error_None in En; lia].
    destruct (@playNextNote_emits w1 n eq_refl En)
      as (H1 & H2 & H3 & (ms & H4) & _ & H6 & H7 & H8).
    cbn [w1 timers with_document with_app] in H4. rewrite Ht in H4.
    repeat apply conj; try assumption; eauto. }
  destruct Hstart as (S1 & S2 & S3 & (t0 & S4) & S5 & S6 & (n0 & Sn & S7)).
  split.
  - intros k Hk wk. subst wk.
    destruct (@ticks_play k w0 t0 S1 S4) as (P1 & P2 & P3 & _ & _ & P6).
    { rewrite S2, S3. subst remaining. lia. }
    split; [exact P1|]. split; [rewrite P3, S3; lia|].
    destruct k as [|k].
    + exists n0. rewrite Nat.add_0_r. auto.
    + destruct (P6 ltac:(lia)) as (_ & n & Hn & Hr).
      exists n. split; [|exact Hr].
      rewrite S2, S3 in Hn.
      replace (currentNoteIndex (app w) + 1 + S k - 1)
        with (currentNoteIndex (app w) + S k) in Hn by lia.
      exact Hn.
  - intros wn. subst wn.
    destruct remaining as [|m] eqn:Er; [subst remaining; lia|].
    change (Nat.iter (S m) tick w0) with (tick (Nat.iter m tick w0)).
    destruct (@ticks_play m w0 t0 S1 S4) as (P1 & P2 & P3 & (t & P4) & P5 & P6).
    { rewrite S2, S3. lia. }
    set (wm := Nat.iter m tick w0) in *.
    destruct (@tick_completes wm t P1 P4) as (C1 & C2 & C3 & C4 & C5 & C6).
    { rewrite P2, P3, S2, S3. lia. }
    repeat apply conj.
    + exact C1.
    + rewrite C3, P3, S3. lia.
    + rewrite C2, P2. exact S2.
    + exact C4.
    + rewrite C5. destruct m as [|m'].
      * change wm with w0. rewrite S6. lia.
      * destruct (P6 ltac:(lia)) as (Hnp & _). rewrite Hnp, S3. lia.
    + rewrite C6, P5, S5. reflexivity.
Qed.

Lemma playback_runs_to_the_end_loaded :
  let w := loadMIDI (Json (Scenario.response
                             [Scenario.c4; Scenario.d4; Scenario.e4]))
                    Scenario.fresh in
  isPlaying (app w) = false /\ timers w = []
  /\ currentNoteIndex (app w) < List.length (notes (app w))
  /\ currentNoteIndex (app (Nat.iter 3 tick (togglePlayback w))) = 3
  /\ isPlaying (app (Nat.iter 3 tick (togglePlayback w))) = false.
Proof.
  intros w.
  assert (H1 : isPlaying (app w) = false) by reflexivity.
  assert (H2 : timers w = []) by reflexivity.
  assert (H3 : currentNoteIndex (app w) < List.length (notes (app w)))
    by (vm_compute; lia).
  destruct (playback_runs_to_the_end w H1 H2 H3) as (_ & Hp & Hc & _).
  repeat apply conj; [exact H1 | exact H2 | exact H3 | exact Hc | exact Hp].
Defined.
End RunThrough.

(** ** Stepping there and back *)

Section ThereAndBack.
Import PianoLearningApp.
Local Open Scope string_scope.

Lemma seekForward_moves w n :
  isPlaying (app w) = false ->
  nth_error (notes (app w)) (currentNoteIndex (app w)) = Some n ->
  exists w',
    seekForward w = Normal w'
    /\ app w' = set_currentNoteIndex (currentNoteIndex (app w) + 1) (app w)
    /\ readout (document w') = readout_of n
    /\ notes_played (document w') = currentNoteIndex (app w) + 1
    /\ timers w' = timers w.
Proof.
  intros Hp Hn.
  assert (Hlt : (currentNoteIndex (app w) <? List.length (notes (app w)))%nat
                = true).
  { apply Nat.ltb_lt. apply nth_error_Some. congruence. }
  unfold seekForward, handleKeyboard.
  cbn [String.eqb Ascii.eqb Bool.eqb andb]. rewrite Hp, Hlt. cbn [negb andb].
  cbn [app with_app notes currentNoteIndex set_currentNoteIndex document].
  replace (currentNoteIndex (app w) + 1 - 1)
    with (currentNoteIndex (app w)) by lia.
  rewrite Hn. cbn [displayCurrentNote].
  eexists. split; [reflexivity|]. repeat apply conj; reflexivity.
Qed.

Lemma seekBack_moves w n :
  isPlaying (app w) = false -> 0 < currentNoteIndex (app w) ->
  nth_error (notes (app w)) (currentNoteIndex (app w) - 1) = Some n ->
  exists w',
    seekBack w = Normal w'
    /\ app w' = set_currentNoteIndex (currentNoteIndex (app w) - 1) (app w)
    /\ readout (document w') = readout_of n
    /\ notes_played (document w') = currentNoteIndex (app w) - 1
    /\ timers w' = timers w.
Proof.
  intros Hp Hpos Hn. apply Nat.ltb_lt in Hpos.
  unfold seekBack, handleKeyboard.
  cbn [String.eqb Ascii.eqb Bool.eqb andb]. rewrite Hp, Hpos. cbn [negb andb].
  cbn [app with_app notes currentNoteIndex set_currentNoteIndex document].
  rewrite Hn. cbn [displayCurrentNote].
  eexists. split; [reflexivity|]. repeat apply conj; reflexivity.
Qed.

Lemma set_currentNoteIndex_back a i j :
  i = currentNoteIndex a ->
  set_currentNoteIndex i (set_currentNoteIndex j a) = a.
Proof. intros ->. destruct a; reflexivity. Qed.

(** X10: while paused, a step forward followed by a step back (and a step
    back followed by a step forward) returns the app object to what it
    was, without raising; the readout then shows the note at the cursor
    (respectively the note before it). *)
Theorem stepping_there_and_back (w : World) :
  isPlaying (app w) = false ->
  currentNoteIndex (app w) <= List.length (notes (app w)) ->
  (currentNoteIndex (app w) < List.length (notes (app w)) ->
   exists w1 w2 n,
     seekForward w = Normal w1 /\ seekBack w1 = Normal w2
     /\ app w2 = app w
     /\ nth_error (notes (app w)) (currentNoteIndex (app w)) = Some n
     /\ readout (document w2) = readout_of n)
  /\ (0 < currentNoteIndex (app w) ->
      exists w1 w2 n,
        seekBack w = Normal w1 /\ seekForward w1 = Normal w2
        /\ app w2 = app w
        /\ nth_error (notes (app w)) (currentNoteIndex (app w) - 1) = Some n
        /\ readout (document w2) = readout_of n).
Proof.
  intros Hp Hle. split.
  - intros Hlt.
    destruct (nth_error (notes (app w)) (currentNoteIndex (app w)))
      as [n|] eqn:En; [|apply nth_error_None in En; lia].
    destruct (seekForward_moves w Hp En) as (w1 & F1 & F2 & _).
    assert (Hp1 : isPlaying (app w1) = false) by (rewrite F2; exact Hp).
    assert (Hc1 : currentNoteIndex (app w1) = currentNoteIndex (app w) + 1)
      by (rewrite F2; reflexivity).
    assert (En1 : nth_error (notes (app w1)) (currentNoteIndex (app w1) - 1)
                  = Some n).
    { rewrite Hc1, F2. cbn [notes set_currentNoteIndex].
      replace (currentNoteIndex (app w) + 1 - 1)
        with (currentNoteIndex (app w)) by lia. exact En. }
    destruct (seekBack_moves w1 Hp1 ltac:(lia) En1) as (w2 & B1 & B2 & B3 & _).
    exists w1, w2, n. repeat apply conj; auto.
    rewrite B2, F2. apply set_currentNoteIndex_back.
    cbn [currentNoteIndex set_currentNoteIndex]. lia.
  - intros Hpos.
    destruct (nth_error (notes (app w)) (currentNoteIndex (app w) - 1))
      as [n|] eqn:En; [|apply nth_error_None in En; lia].
    destruct (seekBack_moves w Hp Hpos En) as (w1 & B1 & B2 & _).
    assert (Hp1 : isPlaying (app w1) = false) by (rewrite B2; exact Hp).
    assert (En1 : nth_error (notes (app w1)) (currentNoteIndex (app w1))
                  = Some n).
    { rewrite B2. cbn [notes currentNoteIndex set_currentNoteIndex]. exact En. }
    destruct (seekForward_moves w1 Hp1 En1) as (w2 & F1 & F2 & F3 & _).
    exists w1, w2, n. repeat apply conj; auto.
    rewrite F2, B2. apply set_currentNoteIndex_back.
    cbn [currentNoteIndex set_currentNoteIndex]. lia.
Qed.

Lemma stepping_there_and_back_completed :
  isPlaying (app Scenario.completed) = false
  /\ currentNoteIndex (app Scenario.completed)
     <= List.length (notes (app Scenario.completed))
  /\ app (world_of (seekForward (world_of (seekBack Scenario.completed))))
     = app Scenario.completed.
Proof.
  assert (H1 : isPlaying (app Scenario.completed) = false) by reflexivity.
  assert (H2 : currentNoteIndex (app Scenario.completed)
               <= List.length (notes (app Scenario.completed)))
    by (vm_compute; lia).
  destruct (stepping_there_and_back Scenario.completed H1 H2) as (_ & H).
  destruct H as (w1 & w2 & n & B & F & Ha & _); [vm_compute; lia|].
  repeat apply conj; [exact H1 | exact H2 |].
  rewrite B. cbn [world_of]. rewrite F. exact Ha.
Defined.

(** ** The cursor on a fixed sequence *)

(** X11: from a state whose cursor is within the sequence, no handler other
    than a load takes it outside, over any run of events; a load that
    settles with data keeps it inside exactly when the new sequence is
    at least as long as the cursor. *)
Theorem cursor_stays_in_range (w : World) :
  cursor_in_range w ->
  (forall es,
      Forall (fun e => forall data, e <> LoadSettles (Json data)) es ->
      cursor_in_range (run es w))
  /\ (forall data,
         cursor_in_range (step (LoadSettles (Json data)) w)
         <-> currentNoteIndex (app w) <= List.length (r_notes data)).
Proof.
  intros H. split.
  - intros es Hes. revert w H.
    induction Hes as [|e es He _ IH]; intros w H; cbn [run fold_left].
    + exact H.
    + apply IH. apply step_keeps_cursor_in_range; [|exact H].
      intros data ->. exfalso. exact (He data eq_refl).
  - intros data. unfold cursor_in_range. cbn [step].
    unfold loadMIDI.
    destruct (displayDifficultyInfo (difficulty data) _); reflexivity.
Qed.

Lemma cursor_stays_in_range_playing :
  cursor_in_range Scenario.playing
  /\ cursor_in_range
       (run [TimerDue 1; ClickPlayPause; KeyDown "ArrowRight"; ClickReset]
            Scenario.playing).
Proof.
  assert (H : cursor_in_range Scenario.playing)
    by (unfold cursor_in_range; vm_compute; lia).
  split; [exact H|].
  destruct (cursor_stays_in_range H) as [Hrun _].
  apply Hrun. repeat constructor; discriminate.
Defined.

(** ** A response without difficulty *)

(** X12: when the response parses but carries no difficulty, the sequence
    has already been replaced when [displayDifficultyInfo] raises: the
    user is shown the error notification, the play button and the note
    count are left as they were, and the new notes are in place. *)
Theorem load_without_difficulty_replaces_notes (data : ResponseData)
        (w : World) :
  difficulty data = None ->
  notes (app (loadMIDI (Json data) w)) = r_notes data
  /\ handPositions (app (loadMIDI (Json data) w)) = hand_positions data
  /\ document (loadMIDI (Json data) w) = document w
  /\ currentNoteIndex (app (loadMIDI (Json data) w)) = currentNoteIndex (app w)
  /\ notifications (loadMIDI (Json data) w)
     = (notifications w
          ++ [{| message :=
                   "Error loading MIDI file. Make sure the backend is running.";
                 kind := "error" |}])%list.
Proof.
  intros Hd. unfold loadMIDI. rewrite Hd. cbn [displayDifficultyInfo].
  repeat apply conj; reflexivity.
Qed.

Lemma load_without_difficulty_replaces_notes_fresh :
  difficulty {| r_notes := [Scenario.c4]; hand_positions := [];
                difficulty := None; total_notes := 1 |} = None
  /\ notes (app (loadMIDI
                   (Json {| r_notes := [Scenario.c4]; hand_positions := [];
                            difficulty := None; total_notes := 1 |})
                   Scenario.fresh)) = [Scenario.c4].
Proof.
  split; [reflexivity|].
  destruct (@load_without_difficulty_replaces_notes
              {| r_notes := [Scenario.c4]; hand_positions := [];
                 difficulty := None; total_notes := 1 |}
              Scenario.fresh eq_refl) as [H _].
  exact H.
Defined.
End ThereAndBack.

(** ** The larger of two numbers *)

Section Larger.
Local Open Scope float_scope.

Lemma SFcompare_antisym x y :
  SFcompare y x = option_map CompOpp (SFcompare x y).
Proof.
  destruct x as [sx|sx| |sx mx ex], y as [sy|sy| |sy my ey];
    try destruct sx; try destruct sy; try reflexivity;
    cbn [SFcompare option_map];
    rewrite (Z.compare_antisym ex ey);
    pose proof (Pos.compare_cont_antisym mx my Eq) as Hm;
    cbn [CompOpp] in Hm;
    destruct (ex ?= ey)%Z; cbn [CompOpp]; try reflexivity;
    rewrite <- Hm; rewrite ?CompOpp_involutive; reflexivity.
Qed.

Lemma is_nan_spec a :
  PrimFloat.is_nan a = match Prim2SF a with S754_nan => true | _ => false end.
Proof.
  unfold PrimFloat.is_nan. rewrite eqb_spec. unfold SFeqb.
  destruct (Prim2SF a) as [s|s| |s m e] eqn:E.
  - reflexivity.
  - destruct s; reflexivity.
  - reflexivity.
  - rewrite SFcompare_refl by discriminate. reflexivity.
Qed.

(** [Math.max] of two numbers is at least each of them; with a NaN it
    is NaN. *)
Lemma Math_max_bounds a b :
  (PrimFloat.is_nan a = false -> PrimFloat.is_nan b = false ->
   (a <=? JS.Math_max a b) = true /\ (b <=? JS.Math_max a b) = true
   /\ PrimFloat.is_nan (JS.Math_max a b) = false)
  /\ (PrimFloat.is_nan a = true \/ PrimFloat.is_nan b = true ->
      PrimFloat.is_nan (JS.Math_max a b) = true).
Proof.
  split.
  - intros Ha Hb. unfold JS.Math_max. rewrite Ha, Hb. cbn [orb].
    rewrite !is_nan_spec in *.
    assert (Hxx : SFcompare (Prim2SF a) (Prim2SF a) = Some Eq)
      by (apply SFcompare_refl; intros E; rewrite E in Ha; discriminate).
    assert (Hyy : SFcompare (Prim2SF b) (Prim2SF b) = Some Eq)
      by (apply SFcompare_refl; intros E; rewrite E in Hb; discriminate).
    pose proof (SFcompare_antisym (Prim2SF a) (Prim2SF b)) as Hanti.
    rewrite !ltb_spec. unfold SFltb.
    destruct (SFcompare (Prim2SF a) (Prim2SF b)) as [[| |]|] eqn:Exy;
      cbn [option_map CompOpp] in Hanti.
    all: try rewrite Hanti.
    + (* equal *)
      cbv beta iota.
      destruct (PrimFloat.is_zero a && PrimFloat.get_sign a)%bool;
        rewrite !leb_spec, ?is_nan_spec; unfold SFleb;
        rewrite ?Exy, ?Hanti, ?Hxx, ?Hyy, ?Ha, ?Hb; auto.
    + cbv beta iota. rewrite !leb_spec, ?is_nan_spec. unfold SFleb.
      rewrite Exy, Hyy, Hb. auto.
    + cbv beta iota. rewrite !leb_spec, ?is_nan_spec. unfold SFleb.
      rewrite Hanti, Hxx, Ha. auto.
    + destruct (Prim2SF a), (Prim2SF b); cbn in Exy; discriminate.
  - intros H. unfold JS.Math_max.
    destruct H as [-> | ->]; rewrite ?orb_true_r; reflexivity.
Qed.
End Larger.

Section Floor.
Import PianoLearningApp.
Local Open Scope float_scope.

(** X13: the advance [playNextNote] arms for the note at the cursor never
    comes due sooner than 100 ms, nor sooner than the time to the next
    note (the hold of the last note) at the current speed, as long as
    that time is a number; if it is NaN, so is the armed delay. *)
Theorem armed_wait_is_the_larger (w : World) (cur : Note) :
  isPlaying (app w) = true ->
  nth_error (notes (app w)) (currentNoteIndex (app w)) = Some cur ->
  let raw :=
    match nth_error (notes (app w)) (currentNoteIndex (app w) + 1) with
    | Some nx => (offset nx - offset cur) * 1000 / playbackSpeed (app w)
    | None => duration cur * 1000 / playbackSpeed (app w)
    end in
  exists wait,
    timers (playNextNote w)
    = (timers w ++ [{| handle := next_handle w; delay := wait |}])%list
    /\ (PrimFloat.is_nan raw = false ->
        (100 <=? wait) = true /\ (raw <=? wait) = true
        /\ PrimFloat.is_nan wait = false)
    /\ (PrimFloat.is_nan raw = true -> PrimFloat.is_nan wait = true).
Proof.
  intros Hp Hcur raw.
  assert (Hlt : (List.length (notes (app w)) <=? currentNoteIndex (app w))%nat
                = false).
  { apply Nat.leb_gt. apply nth_error_Some. congruence. }
  exists (JS.Math_max raw 100). split.
  - unfold playNextNote. rewrite Hp, Hlt, Hcur. reflexivity.
  - destruct (Math_max_bounds raw 100) as [Hb Hn]. split.
    + intros Hr. destruct (Hb Hr eq_refl) as (B1 & B2 & B3). auto.
    + intros Hr. apply Hn. auto.
Qed.

Lemma armed_wait_is_the_larger_due :
  isPlaying (app Scenario.due) = true
  /\ nth_error (notes (app Scenario.due)) (currentNoteIndex (app Scenario.due))
     = Some Scenario.d4
  /\ exists wait,
      timers (playNextNote Scenario.due) = [{| handle := 2; delay := wait |}]
      /\ (100 <=? wait) = true.
Proof.
  assert (Hp : isPlaying (app Scenario.due) = true) by reflexivity.
  assert (Hn : nth_error (notes (app Scenario.due))
                         (currentNoteIndex (app Scenario.due))
               = Some Scenario.d4) by reflexivity.
  destruct (armed_wait_is_the_larger Scenario.due Hp Hn)
    as (wait & Ht & Hb & _).
  repeat apply conj; [exact Hp | exact Hn |].
  exists wait. split; [exact Ht|].
  apply Hb. reflexivity.
Defined.
End Floor.

(** ** The hand selector *)

Section HandSelector.
Import PianoLearningApp.
Local Open Scope string_scope.

Lemma setVisibleHands_fields h w :
  exists l r,
    setVisibleHands h w
    = with_document (set_hand_display l r) (with_app (set_visibleHands h) w).
Proof.
  unfold setVisibleHands.
  destruct (String.eqb h "right"); [|destruct (String.eqb h "left")];
    eauto.
Qed.

Lemma playNextNote_hands h l r w :
  playNextNote (with_document (set_hand_display l r)
                  (with_app (set_visibleHands h) w))
  = with_document (set_hand_display l r)
      (with_app (set_visibleHands h) (playNextNote w)).
Proof.
  destruct w as [a d t nh nf]. destruct a as [ns hp c p sp vh pt].
  destruct d as [ks rh lh ro pf np lab dis tot dif tem ld rd].
  unfold playNextNote.
  cbn [app with_app with_document set_visibleHands isPlaying notes
       currentNoteIndex playbackSpeed].
  destruct (negb p || (List.length ns <=? c)%nat)%bool.
  - unfold pausePlayback.
    cbn [app with_app with_document set_visibleHands set_isPlaying
         playbackTimer].
    destruct pt; reflexivity.
  - destruct (nth_error ns c) as [n|]; [|reflexivity].
    unfold render, highlightFinger.
    destruct (String.eqb (hand n) "right"); reflexivity.
Qed.

Lemma togglePlayback_hands h l r w :
  togglePlayback (with_document (set_hand_display l r)
                    (with_app (set_visibleHands h) w))
  = with_document (set_hand_display l r)
      (with_app (set_visibleHands h) (togglePlayback w)).
Proof.
  unfold togglePlayback, startPlayback.
  assert (Hp : isPlaying (app (with_document (set_hand_display l r)
                                 (with_app (set_visibleHands h) w)))
               = isPlaying (app w)) by reflexivity.
  assert (Hn : notes (app (with_document (set_hand_display l r)
                             (with_app (set_visibleHands h) w)))
               = notes (app w)) by reflexivity.
  rewrite Hp, Hn. clear Hp Hn.
  destruct (isPlaying (app w)).
  - destruct w as [a d t nh nf]. destruct a as [ns hp c p sp vh pt].
    unfold pausePlayback.
    cbn [app with_app with_document set_visibleHands set_isPlaying
         playbackTimer].
    destruct pt; reflexivity.
  - destruct (List.length (notes (app w)) =? 0)%nat; [reflexivity|].
    rewrite <- playNextNote_hands. reflexivity.
Qed.

Lemma resetPlayback_hands h l r w :
  resetPlayback (with_document (set_hand_display l r)
                   (with_app (set_visibleHands h) w))
  = with_document (set_hand_display l r)
      (with_app (set_visibleHands h) (resetPlayback w)).
Proof.
  destruct w as [a d t nh nf]. destruct a as [ns hp c p sp vh pt].
  destruct d as [ks rh lh ro pf np lab dis tot dif tem ld rd].
  unfold resetPlayback, pausePlayback.
  cbn [app with_app with_document set_visibleHands set_isPlaying
       playbackTimer].
  destruct pt; reflexivity.
Qed.

Lemma handleKeyboard_hands c h l r w :
  world_of (handleKeyboard c (with_document (set_hand_display l r)
                                (with_app (set_visibleHands h) w)))
  = with_document (set_hand_display l r)
      (with_app (set_visibleHands h) (world_of (handleKeyboard c w))).
Proof.
  unfold handleKeyboard.
  destruct (String.eqb c "Space");
    [cbn [world_of]; apply togglePlayback_hands|].
  destruct (String.eqb c "ArrowRight").
  { destruct w as [a d t nh nf]. destruct a as [ns hp i p sp vh pt].
    destruct d as [ks rh lh ro pf np lab dis tot dif tem ld rd].
    cbn [app with_app with_document set_visibleHands isPlaying notes
         currentNoteIndex set_currentNoteIndex document].
    destruct (negb p && (i <? List.length ns)%nat)%bool; [|reflexivity].
    destruct (nth_error ns (i + 1 - 1)); reflexivity. }
  destruct (String.eqb c "ArrowLeft").
  { destruct w as [a d t nh nf]. destruct a as [ns hp i p sp vh pt].
    destruct d as [ks rh lh ro pf np lab dis tot dif tem ld rd].
    cbn [app with_app with_document set_visibleHands isPlaying notes
         currentNoteIndex set_currentNoteIndex document].
    destruct (negb p && (0 <? i)%nat)%bool; [|reflexivity].
    destruct (nth_error ns (i - 1)); reflexivity. }
  destruct (String.eqb c "KeyR"); [|reflexivity].
  cbn [world_of]. apply resetPlayback_hands.
Qed.

Lemma step_hands e h l r w :
  (forall h', e <> HandSelect h') ->
  step e (with_document (set_hand_display l r)
            (with_app (set_visibleHands h) w))
  = with_document (set_hand_display l r)
      (with_app (set_visibleHands h) (step e w)).
Proof.
  intros He. destruct e as [res| | |s|hs| |c|t]; cbn [step].
  - destruct w as [a d ts nh nf]. destruct a as [ns hp i p sp vh pt].
    destruct d as [ks rh lh ro pf np lab dis tot dif tem ld rd].
    destruct res as [| | |data]; try reflexivity.
    unfold loadMIDI. cbn [with_app with_document app document].
    destruct (difficulty data); reflexivity.
  - apply togglePlayback_hands.
  - apply resetPlayback_hands.
  - destruct w as [a d ts nh nf]. destruct a as [ns hp i p sp vh pt].
    destruct d as [ks rh lh ro pf np lab dis tot dif tem ld rd].
    reflexivity.
  - exfalso. exact (He hs eq_refl).
  - destruct w as [a d ts nh nf].
    destruct d as [ks rh lh ro pf np lab dis tot dif tem ld rd].
    reflexivity.
  - apply handleKeyboard_hands.
  - unfold fire. cbn [timers with_document with_app].
    destruct (existsb (fun x => Pos.eqb (handle x) t) (timers w));
      [|reflexivity].
    rewrite <- playNextNote_hands. reflexivity.
Qed.

(** X14: choosing which hands are visible never changes what any other
    handler does: handling another event after a hand selection gives
    the state that the selection gives after that event.  The choice is
    a display filter only: nothing in playback, stepping, loading or the
    timers reads it. *)
Theorem hand_selection_commutes (e : Event) (hands : string) (w : World) :
  (forall h', e <> HandSelect h') ->
  step e (setVisibleHands hands w) = setVisibleHands hands (step e w).
Proof.
  intros He. unfold setVisibleHands.
  destruct (String.eqb hands "right"); [|destruct (String.eqb hands "left")];
    apply step_hands; exact He.
Qed.

Lemma hand_selection_commutes_playing :
  (forall h', TimerDue 1 <> HandSelect h')
  /\ step (TimerDue 1) (setVisibleHands "left" Scenario.playing)
     = setVisibleHands "left" (step (TimerDue 1) Scenario.playing).
Proof.
  assert (H : forall h', TimerDue 1 <> HandSelect h') by discriminate.
  split; [exact H|].
  exact (hand_selection_commutes "left" Scenario.playing H).
Defined.
End HandSelector.

(** ** Tempo *)

Section Tempo.
Import PianoLearningApp.
Local Open Scope float_scope.

(** X15: A tempo change leaves the armed advance as it is and is used when
    that advance comes due: the next delay is computed with the new
    speed. *)
Theorem tempo_applies_to_next_advance (w : World) (t : Timer) (cur : Note)
        (speed : JS.number) :
  isPlaying (app w) = true -> timers w = [t] ->
  nth_error (notes (app w)) (currentNoteIndex (app w)) = Some cur ->
  timers (setTempo speed w) = [t]
  /\ timers (tick (setTempo speed w))
     = [{| handle := next_handle w;
           delay :=
             JS.Math_max
               match nth_error (notes (app w)) (currentNoteIndex (app w) + 1) with
               | Some nx => (offset nx - offset cur) * 1000 / speed
               | None => duration cur * 1000 / speed
               end 100 |}].
Proof.
  intros Hp Ht Hn. split; [exact Ht|].
  assert (Hlt : (List.length (notes (app w)) <=? currentNoteIndex (app w))%nat
                = false).
  { apply Nat.leb_gt. apply nth_error_Some. congruence. }
  unfold tick, fire, setTempo. cbn [timers with_app with_document].
  rewrite Ht. cbn [existsb]. rewrite Pos.eqb_refl. cbn [orb].
  unfold playNextNote, clearTimeout, with_timers.
  cbn [app with_app with_document timers set_playbackSpeed isPlaying notes
       currentNoteIndex playbackSpeed].
  rewrite Hp, Hlt, Hn, Ht. cbn [negb orb filter].
  rewrite Pos.eqb_refl. reflexivity.
Qed.

Lemma tempo_applies_to_next_advance_playing :
  isPlaying (app Scenario.playing) = true
  /\ timers Scenario.playing = [{| handle := 1; delay := 1000 |}]
  /\ nth_error (notes (app Scenario.playing))
               (currentNoteIndex (app Scenario.playing)) = Some Scenario.d4
  /\ timers (tick (setTempo 2 Scenario.playing))
     = [{| handle := 2; delay := 500 |}].
Proof.
  assert (H1 : isPlaying (app Scenario.playing) = true) by reflexivity.
  assert (H2 : timers Scenario.playing = [{| handle := 1; delay := 1000 |}])
    by reflexivity.
  assert (H3 : nth_error (notes (app Scenario.playing))
                 (currentNoteIndex (app Scenario.playing)) = Some Scenario.d4)
    by reflexivity.
  destruct (@tempo_applies_to_next_advance Scenario.playing _ _ 2 H1 H2 H3)
    as [_ H].
  repeat apply conj; [exact H1 | exact H2 | exact H3 |].
  rewrite H. reflexivity.
Defined.
End Tempo.

(** ** The first engine *)

Section FirstEngine.
Import PianoLearningAppMVP.
Local Open Scope string_scope.

(** X16: the heuristic sees only the pitch class: a non-negative MIDI number
    and the one an octave above get the same finger; every negative
    number gets the thumb, the remainder of JavaScript being negative or
    zero there. *)
Theorem assignFinger_octave_invariant (note note' : Note) :
  (0 <= midi note ->
   midi note' = midi note + 12 ->
   assignFingerToNote note' = assignFingerToNote note)%Z
  /\ (midi note < 0 -> assignFingerToNote note = thumb)%Z.
Proof.
  unfold assignFingerToNote. split.
  - intros H0 ->.
    rewrite !rem_12_nonneg by lia.
    replace (midi note + 12)%Z with (midi note + 1 * 12)%Z by lia.
    rewrite Z.mod_add by lia. reflexivity.
  - intros Hneg.
    pose proof (Z.rem_nonpos (midi note) 12 ltac:(lia) ltac:(lia)) as Hb.
    destruct (Z.leb_spec (Z.rem (midi note) 12) 1); [reflexivity | lia].
Qed.

Lemma assignFinger_octave_invariant_F :
  (0 <= midi Scenario.f4)%Z
  /\ assignFingerToNote
       {| pitch := "F5"; midi := 77; duration := 1%float;
          finger := "thumb"; hand := "right" |}
     = assignFingerToNote Scenario.f4.
Proof.
  assert (H : (0 <= midi Scenario.f4)%Z) by (simpl; lia).
  split; [exact H|].
  destruct (assignFinger_octave_invariant Scenario.f4
              {| pitch := "F5"; midi := 77; duration := 1%float;
                 finger := "thumb"; hand := "right" |}) as [Ho _].
  apply Ho; [exact H | reflexivity].
Defined.

Lemma showHandPosition_shows note w :
  exists w',
    showHandPosition (Some note) w = Normal w'
    /\ notes w' = notes w /\ currentNoteIndex w' = currentNoteIndex w
    /\ isPlaying w' = isPlaying w /\ timers w' = timers w
    /\ next_handle w' = next_handle w
    /\ info_panel (document w') = Some note
    /\ piano_keys (document w')
       = update_first (fun k => Z.eqb (data_midi k) (midi note))
           (fun k => {| data_note := data_note k; data_midi := data_midi k;
                        key_active := true |})
           (map (fun k => {| data_note := data_note k;
                             data_midi := data_midi k;
                             key_active := false |})
                (piano_keys (document w)))
    /\ hand_group (document w')
       = update_first (fun f => String.eqb (id f) (finger note))
           (fun f => {| id := id f; finger_active := true |})
           (map (fun f => {| id := id f; finger_active := false |})
                (hand_group (document w))).
Proof.
  eexists. split; [reflexivity|]. repeat apply conj; reflexivity.
Qed.

(** X17: after [showHandPosition] at most one key and at most one finger
    circle are active, the active ones are those of the note, and the
    info panel shows the note. *)
Theorem showHandPosition_single_highlight (note : Note) (w : World) :
  exists w',
    showHandPosition (Some note) w = Normal w'
    /\ count key_active (piano_keys (document w')) <= 1
    /\ count finger_active (hand_group (document w')) <= 1
    /\ (forall k, In k (piano_keys (document w')) -> key_active k = true ->
                  data_midi k = midi note)
    /\ (forall f, In f (hand_group (document w')) -> finger_active f = true ->
                  id f = finger note)
    /\ info_panel (document w') = Some note.
Proof.
  destruct (showHandPosition_shows note w)
    as (w' & Hw & _ & _ & _ & _ & _ & Hi & Hk & Hf).
  exists w'. split; [exact Hw|]. rewrite Hk, Hf.
  repeat apply conj.
  - apply count_set_after_clear; reflexivity.
  - apply count_set_after_clear; reflexivity.
  - intros k Hin Ha.
    apply (@marked_after_clear _ _ key_active) in Hin; auto.
    destruct Hin as (y & _ & Hy & ->). apply Z.eqb_eq in Hy. exact Hy.
  - intros f Hin Ha.
    apply (@marked_after_clear _ _ finger_active) in Hin; auto.
    destruct Hin as (y & _ & Hy & ->). apply String.eqb_eq in Hy. exact Hy.
  - exact Hi.
Qed.
End FirstEngine.

Section FirstEngineKeyboard.
Import PianoLearningAppMVP.
Local Open Scope string_scope.

Lemma createPianoKeys_layout d :
  piano_keys d = [] ->
  key_layout (createPianoKeys d)
  = [("C", 60); ("D", 61); ("E", 62); ("F", 63); ("G", 64); ("A", 65);
     ("B", 66); ("C#", 61); ("D#", 62); ("F#", 63); ("G#", 64);
     ("A#", 65)]%Z.
Proof. intros H. unfold key_layout, createPianoKeys. simpl. rewrite H. reflexivity. Qed.

Lemma cleared_keys_from_layout l :
  map (fun k => {| data_note := data_note k; data_midi := data_midi k;
                   key_active := false |}) l
  = map (fun p => {| data_note := fst p; data_midi := snd p;
                     key_active := false |})
        (map (fun k => (data_note k, data_midi k)) l).
Proof. rewrite map_map. reflexivity. Qed.

(** X18: on the keyboard the first engine builds, [showHandPosition] lights
    a key only for MIDI numbers 60 to 66, and the key it lights is
    always one of the seven white keys: every black key shares its
    number with a white key earlier in the document, which the query
    finds first. *)
Theorem mvp_only_white_keys_light (note : Note) (w : World) (page : Document) :
  piano_keys page = [] ->
  key_layout (document w) = key_layout (createPianoKeys page) ->
  exists w',
    showHandPosition (Some note) w = Normal w'
    /\ count key_active (piano_keys (document w'))
       = (if ((60 <=? midi note) && (midi note <=? 66))%Z%bool then 1 else 0)
    /\ forall k, In k (piano_keys (document w')) -> key_active k = true ->
                 In (data_note k) ["C"; "D"; "E"; "F"; "G"; "A"; "B"]
                 /\ data_midi k = midi note.
Proof.
  intros Hpage Hlay. rewrite (createPianoKeys_layout page Hpage) in Hlay.
  destruct (showHandPosition_shows note w)
    as (w' & Hw & _ & _ & _ & _ & _ & _ & Hk & _).
  exists w'. split; [exact Hw|]. rewrite Hk.
  rewrite cleared_keys_from_layout. unfold key_layout in Hlay. rewrite Hlay.
  clear Hk Hw Hlay. set (m := midi note). clearbody m.
  cbn [map fst snd update_first data_midi].
  repeat match goal with
         | |- context [Z.eqb ?a m] =>
             destruct (Z.eqb_spec a m) as [<-|?];
             [ split;
               [ reflexivity
               | intros k Hin Hact; cbn [In] in Hin;
                 repeat (destruct Hin as [<-|Hin];
                         [first [discriminate Hact | cbn; tauto]|]);
                 contradiction ]
             | ]
         end.
  split.
  - unfold count. cbn.
    symmetry. destruct ((60 <=? m) && (m <=? 66))%Z%bool eqn:E;
      [|reflexivity].
    apply andb_true_iff in E as [E1 E2].
    apply Z.leb_le in E1, E2. lia.
  - intros k Hin Hact. cbn [In] in Hin.
    repeat (destruct Hin as [<-|Hin]; [discriminate Hact|]).
    contradiction.
Qed.

Lemma mvp_only_white_keys_light_fresh :
  piano_keys blank_page = []
  /\ key_layout (document Scenario.fresh_mvp)
     = key_layout (createPianoKeys blank_page)
  /\ count key_active
       (piano_keys
          (document
             (world_of
                (showHandPosition
                   (Some {| pitch := "C#4"; midi := 61; duration := 1%float;
                            finger := "index"; hand := "right" |})
                   Scenario.fresh_mvp)))) = 1.
Proof.
  assert (H1 : piano_keys blank_page = []) by reflexivity.
  assert (H2 : key_layout (document Scenario.fresh_mvp)
               = key_layout (createPianoKeys blank_page)) by reflexivity.
  destruct (@mvp_only_white_keys_light
              {| pitch := "C#4"; midi := 61; duration := 1%float;
                 finger := "index"; hand := "right" |}
              Scenario.fresh_mvp blank_page H1 H2) as (w' & Hw & Hc & _).
  repeat apply conj; [exact H1 | exact H2 |].
  rewrite Hw. cbn [world_of]. rewrite Hc. reflexivity.
Defined.

(** ** Fallback, reset and timers of the first engine *)

Lemma updateInfo_shows w n :
  nth_error (notes w) (currentNoteIndex w) = Some n ->
  exists w',
    updateInfo w = Normal w'
    /\ notes w' = notes w /\ currentNoteIndex w' = currentNoteIndex w
    /\ isPlaying w' = isPlaying w /\ timers w' = timers w
    /\ info_panel (document w') = Some n.
Proof.
  intros Hn. unfold updateInfo.
  assert (Hlen : (0 <? List.length (notes w))%nat = true).
  { apply Nat.ltb_lt. destruct (notes w); [|simpl; lia].
    destruct (currentNoteIndex w); discriminate. }
  rewrite Hlen, Hn.
  destruct (showHandPosition_shows n w)
    as (w' & Hw & H1 & H2 & H3 & H4 & _ & H6 & _).
  exists w'. repeat apply conj; assumption.
Qed.

(** X19: when the request fails the first engine installs its sample and
    shows the note at the cursor; this succeeds exactly while the
    cursor is below 8.  With the cursor at 8 or beyond, the fallback
    itself raises inside the [catch] block, after the sample is in
    place and the highlights are cleared. *)
Theorem mvp_fallback_raises_beyond_sample
        (r : FetchResult ResponseData) (w : World) :
  failed r = true ->
  (currentNoteIndex w < 8 ->
   exists w' n,
     loadMIDI r w = Normal w' /\ notes w' = sample
     /\ nth_error sample (currentNoteIndex w) = Some n
     /\ info_panel (document w') = Some n
     /\ currentNoteIndex w' = currentNoteIndex w)
  /\ (8 <= currentNoteIndex w ->
      exists w',
        loadMIDI r w = Throw w' /\ notes w' = sample
        /\ currentNoteIndex w' = currentNoteIndex w
        /\ count key_active (piano_keys (document w')) = 0
        /\ info_panel (document w') = info_panel (document w)).
Proof.
  intros Hr.
  assert (Hm : loadMIDI r w
               = loadSampleData
                   (log "Error loading MIDI file"
                      (log "Loading MIDI file from backend..." w)))
    by (destruct r; try discriminate; reflexivity).
  rewrite Hm. unfold loadSampleData.
  set (w1 := set_notes sample (log _ (log _ w))).
  assert (Hn1 : notes w1 = sample) by reflexivity.
  assert (Hc1 : currentNoteIndex w1 = currentNoteIndex w) by reflexivity.
  split.
  - intros Hlt.
    destruct (nth_error sample (currentNoteIndex w)) as [n|] eqn:En.
    2:{ apply nth_error_None in En. simpl in En. lia. }
    destruct (@updateInfo_shows w1 n) as (w' & Hw & H1 & H2 & _ & _ & H5).
    { rewrite Hn1, Hc1. exact En. }
    exists w', n. repeat apply conj; auto; congruence.
  - intros Hge. unfold updateInfo. rewrite Hn1, Hc1.
    assert (En : nth_error sample (currentNoteIndex w) = None)
      by (apply nth_error_None; simpl; lia).
    rewrite En. cbn [List.length sample Nat.ltb Nat.leb].
    unfold showHandPosition. eexists. split; [reflexivity|].
    repeat apply conj; try reflexivity.
    unfold clearHighlights. cbn [document with_document piano_keys set_keys
      set_fingers].
    apply count_cleared. reflexivity.
Qed.

Lemma mvp_fallback_raises_beyond_sample_fresh :
  failed (@NetworkError ResponseData) = true
  /\ currentNoteIndex Scenario.fresh_mvp < 8
  /\ exists w', loadMIDI NetworkError Scenario.fresh_mvp = Normal w'.
Proof.
  assert (H1 : failed (@NetworkError ResponseData) = true) by reflexivity.
  assert (H2 : currentNoteIndex Scenario.fresh_mvp < 8) by (vm_compute; lia).
  destruct (@mvp_fallback_raises_beyond_sample NetworkError
              Scenario.fresh_mvp H1) as [H _].
  destruct (H H2) as (w' & n & Hw & _).
  repeat apply conj; [exact H1 | exact H2 |]. exists w'. exact Hw.
Defined.

(** X20: [reset] never raises: it rewinds to 0, stops playback and shows the
    first note if there is one.  It cancels no timer. *)
Theorem mvp_reset_rewinds (w : World) :
  exists w',
    reset w = Normal w'
    /\ currentNoteIndex w' = 0 /\ isPlaying w' = false
    /\ notes w' = notes w /\ timers w' = timers w
    /\ (forall n, nth_error (notes w) 0 = Some n ->
                  info_panel (document w') = Some n).
Proof.
  unfold reset.
  set (w1 := with_document clearHighlights (pause (set_currentNoteIndex 0 w))).
  destruct (notes w) as [|n l] eqn:En.
  - exists w1. unfold updateInfo.
    assert (H : notes w1 = []) by exact En.
    rewrite H. cbn [List.length Nat.ltb Nat.leb].
    repeat apply conj; try reflexivity; try exact En. discriminate.
  - destruct (@updateInfo_shows w1 n) as (w' & Hw & H1 & H2 & H3 & H4 & H5).
    { change (nth_error (notes w) 0 = Some n). rewrite En. reflexivity. }
    exists w'. repeat apply conj; auto.
    + rewrite H1. exact En.
    + cbn [nth_error]. intros n' [= <-]. exact H5.
Qed.

(** X21: A timer that is armed moves the cursor on by one when it comes due,
    whether or not the engine was paused in between: [pause] leaves the
    timer table as it is, and after a pause the advance changes the
    cursor without showing a note or arming anything. *)
Theorem mvp_paused_advance_still_moves (w : World) (h : positive) :
  In h (map fst (timers w)) ->
  timers (pause w) = timers w
  /\ currentNoteIndex (fire h (pause w)) = currentNoteIndex w + 1
  /\ isPlaying (fire h (pause w)) = false
  /\ info_panel (document (fire h (pause w))) = info_panel (document w)
  /\ List.length (timers (fire h (pause w))) < List.length (timers w).
Proof.
  intros Hin. split; [reflexivity|].
  assert (He : existsb (fun t => Pos.eqb (fst t) h) (timers w) = true).
  { apply existsb_exists. apply in_map_iff in Hin as (t & <- & Ht).
    exists t. split; [exact Ht | apply Pos.eqb_refl]. }
  unfold fire. cbn [pause timers set_isPlaying with_document].
  rewrite He. unfold playNextNote.
  cbn [drop_timer set_currentNoteIndex isPlaying negb orb pause
       set_isPlaying with_document currentNoteIndex document timers
       info_panel set_label].
  repeat apply conj; try reflexivity.
  clear He. induction (timers w) as [|t l IH]; [contradiction|].
  cbn [filter map In List.length] in *.
  destruct (Pos.eqb_spec (fst t) h) as [E|E]; cbn [negb].
  - pose proof (filter_length_le (fun t => negb (Pos.eqb (fst t) h)) l). lia.
  - destruct Hin as [Hin|Hin]; [contradiction|].
    cbn [List.length]. specialize (IH Hin). lia.
Qed.

Lemma mvp_paused_advance_still_moves_sample :
  In 1%positive (map fst (timers (play Scenario.fresh_mvp)))
  /\ currentNoteIndex (fire 1 (pause (play Scenario.fresh_mvp))) = 1
  /\ isPlaying (fire 1 (pause (play Scenario.fresh_mvp))) = false.
Proof.
  assert (H : In 1%positive (map fst (timers (play Scenario.fresh_mvp))))
    by (vm_compute; auto).
  destruct (mvp_paused_advance_still_moves (play Scenario.fresh_mvp) 1 H)
    as (_ & Hc & Hp & _).
  repeat apply conj; [exact H | rewrite Hc; reflexivity | exact Hp].
Defined.
End FirstEngineKeyboard.

(** ** A load that fails *)

Section LoadFailure.
Import PianoLearningApp.
Local Open Scope string_scope.

Lemma mvp_failed_load_falls_back
      (r : FetchResult PianoLearningAppMVP.ResponseData)
      (m : PianoLearningAppMVP.World) :
  failed r = true ->
  PianoLearningAppMVP.loadMIDI r m
  = PianoLearningAppMVP.loadSampleData
      (PianoLearningAppMVP.log "Error loading MIDI file"
         (PianoLearningAppMVP.log "Loading MIDI file from backend..." m)).
Proof. intros Hr. destruct r; try discriminate; reflexivity. Qed.

Lemma mvp_updateInfo_console (m : PianoLearningAppMVP.World) :
  PianoLearningAppMVP.console
    (PianoLearningAppMVP.world_of (PianoLearningAppMVP.updateInfo m))
  = PianoLearningAppMVP.console m.
Proof.
  unfold PianoLearningAppMVP.updateInfo.
  destruct (0 <? List.length (PianoLearningAppMVP.notes m))%nat;
    [|reflexivity].
  destruct (nth_error (PianoLearningAppMVP.notes m)
                      (PianoLearningAppMVP.currentNoteIndex m));
    reflexivity.
Qed.

(** C10 (amended): when the request fails, the enhanced engine shows
    an error notification and keeps the app object (sequence, cursor,
    playing flag), the page and the timers as they were.  The first
    engine writes its two lines to the console, the second being the
    error, and substitutes its eight-note sample, keeping the cursor,
    [isPlaying] and the timers; with the cursor below 8 the call ends
    normally and the info panel shows the sample note at the cursor. *)
Theorem load_failure_is_contained
        (r : FetchResult ResponseData) (w : World)
        (r' : FetchResult PianoLearningAppMVP.ResponseData)
        (m : PianoLearningAppMVP.World) :
  failed r = true -> failed r' = true ->
  (app (loadMIDI r w) = app w
   /\ document (loadMIDI r w) = document w
   /\ timers (loadMIDI r w) = timers w
   /\ notifications (loadMIDI r w)
      = (notifications w
           ++ [{| message :=
                    "Error loading MIDI file. Make sure the backend is running.";
                  kind := "error" |}])%list)
  /\ (let m' := PianoLearningAppMVP.world_of
                  (PianoLearningAppMVP.loadMIDI r' m) in
      PianoLearningAppMVP.notes m' = PianoLearningAppMVP.sample
      /\ List.length (PianoLearningAppMVP.notes m') = 8
      /\ PianoLearningAppMVP.currentNoteIndex m'
         = PianoLearningAppMVP.currentNoteIndex m
      /\ PianoLearningAppMVP.isPlaying m' = PianoLearningAppMVP.isPlaying m
      /\ PianoLearningAppMVP.timers m' = PianoLearningAppMVP.timers m
      /\ PianoLearningAppMVP.console m'
         = (PianoLearningAppMVP.console m
              ++ ["Loading MIDI file from backend...";
                  "Error loading MIDI file"])%list)
  /\ (PianoLearningAppMVP.currentNoteIndex m < 8 ->
      exists m' n,
        PianoLearningAppMVP.loadMIDI r' m = PianoLearningAppMVP.Normal m'
        /\ nth_error PianoLearningAppMVP.sample
                     (PianoLearningAppMVP.currentNoteIndex m) = Some n
        /\ PianoLearningAppMVP.info_panel
             (PianoLearningAppMVP.document m') = Some n).
Proof.
  intros Hr Hr'. split; [|split].
  - destruct r; try discriminate; repeat apply conj; reflexivity.
  - cbv zeta. rewrite (mvp_failed_load_falls_back _ m Hr').
    unfold PianoLearningAppMVP.loadSampleData.
    set (m1 := PianoLearningAppMVP.set_notes _ _).
    assert (Hc : PianoLearningAppMVP.console
                   (PianoLearningAppMVP.world_of
                      (PianoLearningAppMVP.updateInfo m1))
                 = (PianoLearningAppMVP.console m
                      ++ ["Loading MIDI file from backend...";
                          "Error loading MIDI file"])%list).
    { rewrite mvp_updateInfo_console. unfold m1. simpl.
      rewrite <- List.app_assoc. reflexivity. }
    revert Hc. unfold m1, PianoLearningAppMVP.updateInfo. simpl.
    destruct (nth_error PianoLearningAppMVP.sample
                        (PianoLearningAppMVP.currentNoteIndex m));
      simpl; intros Hc; repeat apply conj; try reflexivity; exact Hc.
  - intros Hlt. rewrite (mvp_failed_load_falls_back _ m Hr').
    unfold PianoLearningAppMVP.loadSampleData.
    set (m1 := PianoLearningAppMVP.set_notes _ _).
    destruct (nth_error PianoLearningAppMVP.sample
                        (PianoLearningAppMVP.currentNoteIndex m))
      as [n|] eqn:En.
    2:{ apply nth_error_None in En. simpl in En. lia. }
    destruct (@updateInfo_shows m1 n)
      as (m' & Hm & _ & _ & _ & _ & Hi).
    { exact En. }
    exists m', n. repeat apply conj; [exact Hm | reflexivity | exact Hi].
Qed.

Lemma load_failure_is_contained_fresh :
  failed (@HttpError ResponseData 500) = true
  /\ failed (@BodyNotJson PianoLearningAppMVP.ResponseData) = true
  /\ PianoLearningAppMVP.currentNoteIndex Scenario.fresh_mvp < 8
  /\ notes (app (loadMIDI (HttpError 500) Scenario.fresh)) = []
  /\ List.length
       (PianoLearningAppMVP.notes
          (PianoLearningAppMVP.world_of
             (PianoLearningAppMVP.loadMIDI BodyNotJson Scenario.fresh_mvp)))
     = 8
  /\ exists m',
       PianoLearningAppMVP.loadMIDI BodyNotJson Scenario.fresh_mvp
       = PianoLearningAppMVP.Normal m'.
Proof.
  assert (Hlt : PianoLearningAppMVP.currentNoteIndex Scenario.fresh_mvp < 8)
    by (vm_compute; lia).
  destruct (@load_failure_is_contained
              (HttpError 500) Scenario.fresh BodyNotJson Scenario.fresh_mvp
              eq_refl eq_refl) as ((Ha & _) & (_ & Hl & _) & Hn).
  destruct (Hn Hlt) as (m' & n & Hm & _).
  repeat apply conj; [reflexivity | reflexivity | exact Hlt | | exact Hl |].
  - rewrite Ha. reflexivity.
  - exists m'. exact Hm.
Defined.
End LoadFailure.

(** ** Pause and resume *)

Section PauseResume.
Import PianoLearningApp.
Local Open Scope string_scope.

(** X22: pausing during playback and pressing play again does not wait out
    the rest of the interrupted note: the next note is emitted at once,
    the cursor moves on by one, and a single fresh advance is armed. *)
Theorem pause_then_play_emits_next (page : Document) (w : World) (n : Note) :
  reachable page w ->
  isPlaying (app w) = true ->
  nth_error (notes (app w)) (currentNoteIndex (app w)) = Some n ->
  let paused := togglePlayback w in
  let resumed := togglePlayback paused in
  isPlaying (app paused) = false /\ timers paused = []
  /\ currentNoteIndex (app paused) = currentNoteIndex (app w)
  /\ isPlaying (app resumed) = true
  /\ currentNoteIndex (app resumed) = currentNoteIndex (app w) + 1
  /\ readout (document resumed) = readout_of n
  /\ exists ms,
      timers resumed = [{| handle := next_handle w; delay := ms |}].
Proof.
  intros Hr Hp Hn paused resumed.
  pose proof (reachable_timers_inv Hr) as Hinv.
  assert (Hpaused : paused = pausePlayback w).
  { subst paused. unfold togglePlayback. rewrite Hp. reflexivity. }
  assert (P1 : isPlaying (app paused) = false)
    by (rewrite Hpaused, pausePlayback_app; reflexivity).
  assert (P2 : timers paused = [])
    by (rewrite Hpaused; apply pausePlayback_cancels, Hinv).
  assert (P3 : currentNoteIndex (app paused) = currentNoteIndex (app w))
    by (rewrite Hpaused, pausePlayback_app; reflexivity).
  assert (P4 : notes (app paused) = notes (app w))
    by (rewrite Hpaused, pausePlayback_app; reflexivity).
  assert (P5 : next_handle paused = next_handle w)
    by (rewrite Hpaused; apply pausePlayback_next_handle).
  assert (Hlen : (List.length (notes (app paused)) =? 0)%nat = false).
  { rewrite P4. apply Nat.eqb_neq. intros E.
    destruct (notes (app w)); [|discriminate].
    destruct (currentNoteIndex (app w)); discriminate. }
  set (w1 := with_document (set_play_pause_label "Pause")
               (with_app (set_isPlaying true) paused)).
  assert (Hres : resumed = playNextNote w1).
  { subst resumed. unfold togglePlayback. rewrite P1.
    unfold startPlayback. rewrite Hlen. reflexivity. }
  rewrite Hres. clear Hres.
  assert (Hn1 : nth_error (notes (app w1)) (currentNoteIndex (app w1)) = Some n).
  { change (nth_error (notes (app paused)) (currentNoteIndex (app paused))
            = Some n). rewrite P3, P4. exact Hn. }
  destruct (@playNextNote_emits w1 n eq_refl Hn1)
    as (E1 & _ & E3 & (ms & E4) & _ & E6 & _).
  repeat apply conj; try assumption.
  - rewrite E3. change (currentNoteIndex (app w1))
      with (currentNoteIndex (app paused)). rewrite P3. reflexivity.
  - exists ms. rewrite E4.
    change (timers w1) with (timers paused).
    change (next_handle w1) with (next_handle paused).
    rewrite P2, P5. reflexivity.
Qed.

Lemma pause_then_play_emits_next_playing :
  reachable blank_page Scenario.playing
  /\ isPlaying (app Scenario.playing) = true
  /\ nth_error (notes (app Scenario.playing))
               (currentNoteIndex (app Scenario.playing)) = Some Scenario.d4
  /\ currentNoteIndex
       (app (togglePlayback (togglePlayback Scenario.playing))) = 2.
Proof.
  assert (H1 : isPlaying (app Scenario.playing) = true) by reflexivity.
  assert (H2 : nth_error (notes (app Scenario.playing))
                 (currentNoteIndex (app Scenario.playing)) = Some Scenario.d4)
    by reflexivity.
  destruct (pause_then_play_emits_next reachable_playing H1 H2)
    as (_ & _ & _ & _ & Hc & _).
  repeat apply conj; [exact reachable_playing | exact H1 | exact H2 |].
  rewrite Hc. reflexivity.
Defined.
End PauseResume.
